(** * static/docs.js: the documentation page's widgets

    A shallow embedding of [static/docs.js] (API tester form, section
    navigator, code-block copier, documentation search and the two exported
    utilities) together with the properties of its behaviour.

    Conventions.
    - A JavaScript string is the list of its UTF-16 code units, each an [N].
    - The DOM regions a handler touches are records; a handler is a function
      from the state before the event to the state after it.
    - What the browser supplies (the outcome of [fetch], element geometry,
      the Unicode case tables, number printing) is an input of the model. *)

From Stdlib Require Import NArith ZArith QArith List String Ascii Bool Lia.
From stdpp Require Import base list.
Import ListNotations.

Set Warnings "-register-all".

Local Open Scope N_scope.
Local Open Scope list_scope.

(** ** JavaScript strings *)

Module JS.

Abbreviation jstring := (list N).

(** A literal: the code units of an ASCII string. *)
Definition str (s : string) : jstring :=
  List.map N_of_ascii (list_ascii_of_string s).

(** [String.prototype.includes]: [t] occurs in [s] at some position. *)
Fixpoint startsWith (t s : jstring) : bool :=
  match t, s with
  | [], _ => true
  | _ :: _, [] => false
  | a :: t', b :: s' => (a =? b) && startsWith t' s'
  end.

Fixpoint includes (s t : jstring) : bool :=
  startsWith t s ||
  match s with
  | [] => false
  | _ :: s' => includes s' t
  end.

(** [s.substring(1)] *)
Definition substring1 (s : jstring) : jstring := List.tl s.

(** Strict equality [===] on strings. *)
Definition strictEq (s t : jstring) : bool := bool_decide (s = t).

End JS.
Import JS.

(** ** Regular expressions ([RegExp.prototype.test]) *)

Module RegExp.

(** The members of a character class. [ClassSpace] is the escape [\s]. *)
Inductive class_atom : Type :=
| ClassChar (c : N)
| ClassSpace.

(** White space and line terminators of ECMAScript, the set of [\s]. *)
Definition isWhiteSpace (c : N) : bool :=
  (c =? 0x09) || (c =? 0x0A) || (c =? 0x0B) || (c =? 0x0C) || (c =? 0x0D)
  || (c =? 0x20) || (c =? 0xA0) || (c =? 0x1680)
  || ((0x2000 <=? c) && (c <=? 0x200A))
  || (c =? 0x2028) || (c =? 0x2029) || (c =? 0x202F) || (c =? 0x205F)
  || (c =? 0x3000) || (c =? 0xFEFF).

Definition atom_mem (c : N) (a : class_atom) : bool :=
  match a with
  | ClassChar d => c =? d
  | ClassSpace => isWhiteSpace c
  end.

(** Pattern terms. [Class] is [[...]], [NegClass] is [[^...]]. *)
Inductive term : Type :=
| Fail
| Empty
| Char (c : N)
| AnyUnit
| Class (l : list class_atom)
| NegClass (l : list class_atom)
| Seq (r1 r2 : term)
| Alt (r1 r2 : term)
| Star (r : term).

(** [r+] *)
Definition Plus (r : term) : term := Seq r (Star r).

(** A pattern with its two anchors: [/^body$/] has both set. *)
Record pattern : Type := {
  anchor_start : bool;
  body : term;
  anchor_end : bool
}.

Definition unit_matches (r : term) (c : N) : bool :=
  match r with
  | Char d => c =? d
  | AnyUnit => true
  | Class l => existsb (atom_mem c) l
  | NegClass l => negb (existsb (atom_mem c) l)
  | _ => false
  end.

(** The strings a term matches as a whole. *)
Inductive matches : term -> jstring -> Prop :=
| m_empty : matches Empty []
| m_char c : matches (Char c) [c]
| m_any c : matches AnyUnit [c]
| m_class l c : existsb (atom_mem c) l = true -> matches (Class l) [c]
| m_negclass l c : existsb (atom_mem c) l = false -> matches (NegClass l) [c]
| m_seq r1 r2 s1 s2 :
    matches r1 s1 -> matches r2 s2 -> matches (Seq r1 r2) (s1 ++ s2)
| m_alt_l r1 r2 s : matches r1 s -> matches (Alt r1 r2) s
| m_alt_r r1 r2 s : matches r2 s -> matches (Alt r1 r2) s
| m_star_nil r : matches (Star r) []
| m_star_step r s1 s2 :
    matches r s1 -> matches (Star r) s2 -> matches (Star r) (s1 ++ s2).

(** The matcher: does the term accept the empty string, and what is left
    of the term once one code unit has been read. *)
Fixpoint nullable (r : term) : bool :=
  match r with
  | Empty | Star _ => true
  | Seq r1 r2 => nullable r1 && nullable r2
  | Alt r1 r2 => nullable r1 || nullable r2
  | _ => false
  end.

Fixpoint after (c : N) (r : term) : term :=
  match r with
  | Seq r1 r2 =>
      if nullable r1 then Alt (Seq (after c r1) r2) (after c r2)
      else Seq (after c r1) r2
  | Alt r1 r2 => Alt (after c r1) (after c r2)
  | Star r1 => Seq (after c r1) (Star r1)
  | Fail | Empty => Fail
  | _ => if unit_matches r c then Empty else Fail
  end.

Fixpoint accepts (r : term) (s : jstring) : bool :=
  match s with
  | [] => nullable r
  | c :: s' => accepts (after c r) s'
  end.

(** [test] looks for a match anywhere in the string; an anchor pins the
    match to the start, respectively the end, of the input. *)
Definition searched (p : pattern) : term :=
  let r := if anchor_end p then body p else Seq (body p) (Star AnyUnit) in
  if anchor_start p then r else Seq (Star AnyUnit) r.

Definition test (p : pattern) (s : jstring) : bool := accepts (searched p) s.

End RegExp.

(** ** [JSON.stringify] and the JSON grammar *)

Module JSON.

Section Values.

(** The Number values of the engine and their decimal printing
    ([Number::toString], and [null] for a non-finite one) and reading are
    the engine's own. *)
Context {number : Type}.
Variable NumberToString : number -> jstring.
Variable StringToNumber : jstring -> number.

(** The values [response.json()] can produce, an object being the list of
    its properties in enumeration order. *)
Inductive value : Type :=
| Null
| Bool (b : bool)
| Number (n : number)
| String (s : jstring)
| Array (l : list value)
| Object (l : list (jstring * value)).

(** *** Serialisation *)

Definition isLeadingSurrogate (c : N) : bool := (0xD800 <=? c) && (c <=? 0xDBFF).
Definition isTrailingSurrogate (c : N) : bool := (0xDC00 <=? c) && (c <=? 0xDFFF).

Definition hexDigit (d : N) : N := if d <? 10 then 48 + d else 87 + d.

(** [UnicodeEscape]: a backslash, [u] and four lower-case hex digits. *)
Definition UnicodeEscape (c : N) : jstring :=
  [92; 117; hexDigit ((c / 4096) mod 16); hexDigit ((c / 256) mod 16);
   hexDigit ((c / 16) mod 16); hexDigit (c mod 16)].

(** One code unit of [QuoteJSONString] that is not part of a pair. *)
Definition quoteUnit (c : N) : jstring :=
  if c =? 0x08 then [92; 98]
  else if c =? 0x09 then [92; 116]
  else if c =? 0x0A then [92; 110]
  else if c =? 0x0C then [92; 102]
  else if c =? 0x0D then [92; 114]
  else if c =? 0x22 then [92; 34]
  else if c =? 0x5C then [92; 92]
  else if (c <? 0x20) || isLeadingSurrogate c || isTrailingSurrogate c
       then UnicodeEscape c
  else [c].

(** The code points of the string in turn: a surrogate pair goes out as it
    is, a lone surrogate escaped. *)
Fixpoint quoteUnits (s : jstring) : jstring :=
  match s with
  | [] => []
  | c :: rest =>
      if isLeadingSurrogate c then
        match rest with
        | d :: rest' =>
            if isTrailingSurrogate d then c :: d :: quoteUnits rest'
            else UnicodeEscape c ++ quoteUnits rest
        | [] => UnicodeEscape c
        end
      else quoteUnit c ++ quoteUnits rest
  end.

Definition QuoteJSONString (s : jstring) : jstring :=
  34 :: quoteUnits s ++ [34].

Fixpoint join (sep : jstring) (parts : list jstring) : jstring :=
  match parts with
  | [] => []
  | [p] => p
  | p :: ps => p ++ sep ++ join sep ps
  end.

(** Brackets around the serialised members, on lines of their own when
    there is a gap. *)
Definition bracketed (opening closing : N) (gap stepback : jstring)
    (partial : list jstring) : jstring :=
  match partial with
  | [] => [opening; closing]
  | _ =>
      match gap with
      | [] => opening :: join [44] partial ++ [closing]
      | _ =>
          let indent := stepback ++ gap in
          opening :: 10 :: indent ++ join (44 :: 10 :: indent) partial
            ++ 10 :: stepback ++ [closing]
      end
  end.

(** [SerializeJSONProperty] at the indentation [indent]. *)
Fixpoint serialize (gap indent : jstring) (v : value) : jstring :=
  match v with
  | Null => str "null"
  | Bool true => str "true"
  | Bool false => str "false"
  | Number n => NumberToString n
  | String s => QuoteJSONString s
  | Array l =>
      bracketed 91 93 gap indent
        (List.map (serialize gap (indent ++ gap)) l)
  | Object l =>
      bracketed 123 125 gap indent
        (List.map (fun kv =>
           QuoteJSONString (fst kv) ++ 58 ::
           (match gap with [] => [] | _ => [32] end)
           ++ serialize gap (indent ++ gap) (snd kv)) l)
  end.

(** [JSON.stringify(v)] and [JSON.stringify(v, null, 2)] *)
Definition stringify (v : value) : jstring := serialize [] [] v.
Definition stringify2 (v : value) : jstring := serialize [32; 32] [] v.

(** *** The grammar, as a reader of JSON texts *)

Definition isJSONSpace (c : N) : bool :=
  (c =? 0x20) || (c =? 0x09) || (c =? 0x0A) || (c =? 0x0D).

Fixpoint skip_ws (s : jstring) : jstring :=
  match s with
  | c :: s' => if isJSONSpace c then skip_ws s' else s
  | [] => []
  end.

Definition hexValue (c : N) : option N :=
  if (48 <=? c) && (c <=? 57) then Some (c - 48)
  else if (97 <=? c) && (c <=? 102) then Some (c - 87)
  else if (65 <=? c) && (c <=? 70) then Some (c - 55)
  else None.

Definition hex4 (a b c d : N) : option N :=
  match hexValue a, hexValue b, hexValue c, hexValue d with
  | Some x, Some y, Some z, Some w => Some (x * 4096 + y * 256 + z * 16 + w)
  | _, _, _, _ => None
  end.

Definition simpleEscape (c : N) : option N :=
  if c =? 34 then Some 34
  else if c =? 92 then Some 92
  else if c =? 47 then Some 47
  else if c =? 98 then Some 0x08
  else if c =? 102 then Some 0x0C
  else if c =? 110 then Some 0x0A
  else if c =? 114 then Some 0x0D
  else if c =? 116 then Some 0x09
  else None.

Definition consUnit (c : N) (r : option (jstring * jstring)) :
    option (jstring * jstring) :=
  match r with
  | Some (x, rest) => Some (c :: x, rest)
  | None => None
  end.

(** A string literal after its opening quote: the string it denotes and
    the text after the closing quote. *)
Fixpoint unquote (s : jstring) : option (jstring * jstring) :=
  match s with
  | [] => None
  | c :: s1 =>
      if c =? 34 then Some ([], s1)
      else if c =? 92 then
        match s1 with
        | e :: s2 =>
            if e =? 117 then
              match s2 with
              | h1 :: h2 :: h3 :: h4 :: s3 =>
                  match hex4 h1 h2 h3 h4 with
                  | Some u => consUnit u (unquote s3)
                  | None => None
                  end
              | _ => None
              end
            else
              match simpleEscape e with
              | Some u => consUnit u (unquote s2)
              | None => None
              end
        | [] => None
        end
      else if c <? 0x20 then None
      else consUnit c (unquote s1)
  end.

Definition isDigit (c : N) : bool := (48 <=? c) && (c <=? 57).

Fixpoint digits (s : jstring) : jstring * jstring :=
  match s with
  | c :: s' =>
      if isDigit c then let (d, r) := digits s' in (c :: d, r) else ([], s)
  | [] => ([], [])
  end.

(** A number literal: sign, integer part, fraction, exponent. *)
Definition numberLiteral (s : jstring) : option (jstring * jstring) :=
  let (sign, s0) :=
    match s with
    | 45 :: s' => ([45], s')
    | _ => ([], s)
    end in
  let (int, s1) := digits s0 in
  match int with
  | [] => None
  | 48 :: _ :: _ => None
  | _ =>
      let frac :=
        match s1 with
        | 46 :: s2 =>
            let (f, s3) := digits s2 in
            match f with [] => None | _ => Some (46 :: f, s3) end
        | _ => Some ([], s1)
        end in
      match frac with
      | None => None
      | Some (f, s3) =>
          let exp :=
            match s3 with
            | e :: s4 =>
                if (e =? 101) || (e =? 69) then
                  let (sg, s5) :=
                    match s4 with
                    | g :: s' =>
                        if (g =? 43) || (g =? 45) then ([g], s') else ([], s4)
                    | [] => ([], s4)
                    end in
                  let (x, s6) := digits s5 in
                  match x with [] => None | _ => Some (e :: sg ++ x, s6) end
                else Some ([], s3)
            | [] => Some ([], s3)
            end in
          match exp with
          | None => None
          | Some (x, s6) => Some (sign ++ int ++ f ++ x, s6)
          end
      end
  end.

Fixpoint dropPrefix (p s : jstring) : option jstring :=
  match p, s with
  | [], _ => Some s
  | a :: p', b :: s' => if a =? b then dropPrefix p' s' else None
  | _ :: _, [] => None
  end.

(** A later property of the same name replaces the earlier one. *)
Fixpoint setProperty (k : jstring) (v : value) (l : list (jstring * value)) :
    list (jstring * value) :=
  match l with
  | [] => [(k, v)]
  | (k', v') :: l' =>
      if bool_decide (k = k') then (k, v) :: l'
      else (k', v') :: setProperty k v l'
  end.

Fixpoint readValue (fuel : nat) (s : jstring) : option (value * jstring) :=
  match fuel with
  | O => None
  | S fuel' =>
      match skip_ws s with
      | [] => None
      | c :: s1 =>
          if c =? 34 then
            match unquote s1 with
            | Some (x, r) => Some (String x, r)
            | None => None
            end
          else if c =? 91 then
            match skip_ws s1 with
            | 93 :: r => Some (Array [], r)
            | _ =>
                match readElements fuel' s1 with
                | Some (l, r) => Some (Array l, r)
                | None => None
                end
            end
          else if c =? 123 then
            match skip_ws s1 with
            | 125 :: r => Some (Object [], r)
            | _ =>
                match readMembers fuel' [] s1 with
                | Some (l, r) => Some (Object l, r)
                | None => None
                end
            end
          else if c =? 110 then
            option_map (pair Null) (dropPrefix (str "ull") s1)
          else if c =? 116 then
            option_map (pair (Bool true)) (dropPrefix (str "rue") s1)
          else if c =? 102 then
            option_map (pair (Bool false)) (dropPrefix (str "alse") s1)
          else
            match numberLiteral (c :: s1) with
            | Some (lit, r) => Some (Number (StringToNumber lit), r)
            | None => None
            end
      end
  end
with readElements (fuel : nat) (s : jstring) : option (list value * jstring) :=
  match fuel with
  | O => None
  | S fuel' =>
      match readValue fuel' s with
      | Some (v, r) =>
          match skip_ws r with
          | 93 :: r' => Some ([v], r')
          | 44 :: r' =>
              match readElements fuel' r' with
              | Some (l, r'') => Some (v :: l, r'')
              | None => None
              end
          | _ => None
          end
      | None => None
      end
  end
with readMembers (fuel : nat) (acc : list (jstring * value)) (s : jstring) :
    option (list (jstring * value) * jstring) :=
  match fuel with
  | O => None
  | S fuel' =>
      match skip_ws s with
      | 34 :: s1 =>
          match unquote s1 with
          | Some (k, r) =>
              match skip_ws r with
              | 58 :: r1 =>
                  match readValue fuel' r1 with
                  | Some (v, r2) =>
                      let acc' := setProperty k v acc in
                      match skip_ws r2 with
                      | 125 :: r3 => Some (acc', r3)
                      | 44 :: r3 => readMembers fuel' acc' r3
                      | _ => None
                      end
                  | None => None
                  end
              | _ => None
              end
          | None => None
          end
      | _ => None
      end
  end.

(** A JSON text is one value with white space around it. *)
Definition parse (s : jstring) : option value :=
  match readValue (2 + length s + length s) s with
  | Some (v, r) =>
      match skip_ws r with
      | [] => Some v
      | _ => None
      end
  | None => None
  end.

End Values.

Arguments value : clear implicits.

End JSON.

(** ** The exported utility [isValidEmail] *)

Module Email.
Import RegExp.

Definition at_sign : N := 64.
Definition dot : N := 46.

(** [[^\s@]] *)
Definition notSpaceAt : term := NegClass [ClassSpace; ClassChar at_sign].

(** [/^[^\s@]+@[^\s@]+\.[^\s@]+$/] *)
Definition emailRegex : pattern := {|
  anchor_start := true;
  body :=
    Seq (Plus notSpaceAt)
      (Seq (Char at_sign)
        (Seq (Plus notSpaceAt)
          (Seq (Char dot) (Plus notSpaceAt))));
  anchor_end := true
|}.

Definition isValidEmail (email : jstring) : bool := test emailRegex email.

(** A code unit that is neither white space nor ['@']. *)
Definition plain (c : N) : bool := negb (isWhiteSpace c || (c =? at_sign)).

(** The shape stated in the documentation of the utility, word for word:
    local-part [@] domain, the domain containing a dot, no white space and
    no further ['@'] anywhere. *)
Definition documented_shape (s : jstring) : Prop :=
  exists loc dom : jstring,
    s = loc ++ at_sign :: dom /\
    loc <> [] /\
    In dot dom /\
    forallb plain loc = true /\ forallb plain dom = true.

(** The shape the pattern has: the dot of the domain has at least one code
    unit before it and one after it. *)
Definition pattern_shape (s : jstring) : Prop :=
  exists loc d1 d2 : jstring,
    s = loc ++ at_sign :: d1 ++ dot :: d2 /\
    loc <> [] /\ d1 <> [] /\ d2 <> [] /\
    forallb plain loc = true /\
    forallb plain d1 = true /\ forallb plain d2 = true.

End Email.

(** ** The API tester form *)

Module ApiTester.
Import JSON.

(** How a promise settles; a rejection carries the [message] of its error. *)
Inductive settled (A : Type) : Type :=
| Fulfilled (a : A)
| Rejected (message : jstring).
Arguments Fulfilled {A} a.
Arguments Rejected {A} message.

Section Handler.

Context {number : Type}.
Variable NumberToString : number -> jstring.

Record request : Type := {
  url : jstring;
  method : jstring;
  headers : list (jstring * jstring);
  body : jstring
}.

(** A response: its status and how [response.json()] settles. *)
Record response : Type := {
  status : N;
  json : settled (value number)
}.

(** [response.ok]: the status is in the range 200 to 299. *)
Definition ok (r : response) : bool := (200 <=? status r) && (status r <=? 299).

(** What the handler does to the world outside the result panel. *)
Inductive effect : Type :=
| PreventDefault
| Alert (message : jstring)
| Fetch (req : request).

(** The result panel: [#api-test-output] and the display style of
    [#api-test-result]. *)
Record panel : Type := {
  output_textContent : jstring;
  output_className : jstring;
  result_display : jstring
}.

Record world : Type := {
  dom : panel;
  trace : list effect
}.

(** Handler code: it changes the world and returns or throws. *)
Definition js (A : Type) : Type := world -> settled A * world.

Definition ret {A} (a : A) : js A := fun w => (Fulfilled a, w).

Definition bind {A B} (m : js A) (k : A -> js B) : js B :=
  fun w =>
    match m w with
    | (Fulfilled a, w') => k a w'
    | (Rejected e, w') => (Rejected e, w')
    end.

Definition try_catch {A} (m : js A) (handler : jstring -> js A) : js A :=
  fun w =>
    match m w with
    | (Fulfilled a, w') => (Fulfilled a, w')
    | (Rejected e, w') => handler e w'
    end.

Notation "x <- m ;; k" := (bind m (fun x => k))
  (at level 100, m at next level, right associativity).
Notation "m ;; k" := (bind m (fun _ => k))
  (at level 100, right associativity).

Definition perform (e : effect) : js unit :=
  fun w => (Fulfilled tt, {| dom := dom w; trace := trace w ++ [e] |}).

Definition update (f : panel -> panel) : js unit :=
  fun w => (Fulfilled tt, {| dom := f (dom w); trace := trace w |}).

Definition await {A} (p : settled A) : js A := fun w => (p, w).

Definition set_textContent (s : jstring) : js unit :=
  update (fun p => {| output_textContent := s;
                      output_className := output_className p;
                      result_display := result_display p |}).

Definition set_className (s : jstring) : js unit :=
  update (fun p => {| output_textContent := output_textContent p;
                      output_className := s;
                      result_display := result_display p |}).

Definition set_display (s : jstring) : js unit :=
  update (fun p => {| output_textContent := output_textContent p;
                      output_className := output_className p;
                      result_display := s |}).

(** The network: how [fetch] settles for a request. *)
Variable network : request -> settled response.

Definition fetch (req : request) : js response :=
  perform (Fetch req) ;; await (network req).

(** [!s] for a string: true exactly for the empty one. *)
Definition not_ (s : jstring) : bool :=
  match s with [] => true | _ => false end.

Definition success_class : jstring :=
  str "bg-dark p-3 rounded border border-success".
Definition danger_class : jstring :=
  str "bg-dark p-3 rounded border border-danger".
Definition missing_message : jstring :=
  str "Please enter both API key and email address".

(** The request the listener makes. *)
Definition validate_request (apiKey email : jstring) : request := {|
  url := str "/api/validate";
  method := str "POST";
  headers := [(str "X-API-Key", apiKey);
              (str "Content-Type", str "application/json")];
  body := stringify NumberToString (Object [(str "email", String email)])
|}.

(** The object shown when the request or the reading of its body fails. *)
Definition failure_report (message : jstring) : value number :=
  Object [(str "error", String (str "Request failed: " ++ message))].

(** The submit listener of [#api-test-form], given the values of
    [#api-key] and [#test-email]. *)
Definition on_submit (apiKey email : jstring) : js unit :=
  perform PreventDefault ;;
  if not_ apiKey || not_ email then
    (perform (Alert missing_message) ;;
     ret tt)
  else
    (set_textContent (str "Testing API...") ;;
     set_display (str "block") ;;
     try_catch
      (response <- fetch (validate_request apiKey email) ;;
       result <- await (json response) ;;
       set_textContent (stringify2 NumberToString result) ;;
       if ok response then set_className success_class
       else set_className danger_class)
      (fun message =>
         set_textContent (stringify2 NumberToString (failure_report message)) ;;
         set_className danger_class)).

(** The panel once a settled request has been rendered. *)
Definition rendered (text class : jstring) : panel := {|
  output_textContent := text;
  output_className := class;
  result_display := str "block"
|}.

(** Running the listener on a page: the effects in order and the panel
    left behind. *)
Definition submit (apiKey email : jstring) (p : panel) : list effect * panel :=
  let w := snd (on_submit apiKey email {| dom := p; trace := [] |}) in
  (trace w, dom w).

End Handler.

End ApiTester.

(** ** Class lists *)

Module DOM.

Definition contains (token : jstring) (l : list jstring) : bool :=
  existsb (strictEq token) l.

(** [classList.remove(token)] *)
Definition remove (token : jstring) (l : list jstring) : list jstring :=
  List.filter (fun c => negb (strictEq c token)) l.

(** [classList.add(token)]: a token already present is not added again. *)
Definition add (token : jstring) (l : list jstring) : list jstring :=
  if contains token l then l else l ++ [token].

End DOM.

(** ** The section navigator *)

Module Navigator.

(** An element of the page with what the navigator reads of it: its tag,
    its [id] and [href] attributes, its class list, and the top of its
    bounding rectangle relative to the viewport. *)
Record element : Type := {
  tag : jstring;
  id : option jstring;
  href : option jstring;
  classList : list jstring;
  top : Q
}.

(** The page: its elements in document order. An element is named by its
    position. *)
Abbreviation document := (list element).

Definition active : jstring := str "active".

Definition with_classList (f : list jstring -> list jstring) (e : element) :
    element :=
  {| tag := tag e; id := id e; href := href e;
     classList := f (classList e); top := top e |}.

Definition is_active (e : element) : bool := DOM.contains active (classList e).

(** [a[href^="#"]] *)
Definition is_anchor_link (e : element) : bool :=
  strictEq (tag e) (str "a") &&
  match href e with
  | Some h => startsWith (str "#") h
  | None => false
  end.

(** [.list-group-item-action] *)
Definition is_nav_item (e : element) : bool :=
  DOM.contains (str "list-group-item-action") (classList e).

(** [section[id]] *)
Definition is_section_with_id (e : element) : bool :=
  strictEq (tag e) (str "section") &&
  match id e with Some _ => true | None => false end.

(** [document.getElementById]: the first element with that id; the empty
    string is the id of no element. *)
Definition getElementById (x : jstring) (d : document) : option nat :=
  match x with
  | [] => None
  | _ => fst <$> list_find (fun e => id e = Some x) d
  end.

Inductive effect : Type :=
| PreventDefault
| ScrollIntoView (target : nat) (behavior block : jstring).

(** The body of the loop of [updateActiveNavLink], which runs over the
    [.list-group-item-action] elements. *)
Definition cleared (item : element) : element :=
  if is_nav_item item then with_classList (DOM.remove active) item else item.

(** [updateActiveNavLink(activeLink)], the link being the element at
    position [activeLink]. *)
Definition updateActiveNavLink (activeLink : nat) (d : document) : document :=
  alter (with_classList (DOM.add active)) activeLink (cleared <$> d).

(** The click listener, which every [a[href^="#"]] carries, run for a
    click on the element at position [this]. *)
Definition on_click (this : nat) (d : document) : list effect * document :=
  match d !! this with
  | Some link =>
      if is_anchor_link link then
        match href link with
        | Some h =>
            let targetId := substring1 h in
            match getElementById targetId d with
            | Some targetElement =>
                ([PreventDefault;
                  ScrollIntoView targetElement (str "smooth") (str "start")],
                 updateActiveNavLink this d)
            | None => ([PreventDefault], d)
            end
        | None => ([PreventDefault], d)
        end
      else ([], d)
  | None => ([], d)
  end.

(** The scan of [updateActiveNavOnScroll]: a later qualifying section
    overwrites [current]. *)
Definition qualifies (section : element) : bool :=
  is_section_with_id section && Qle_bool (top section) (100 # 1).

Definition scan_step (current : jstring) (section : element) : jstring :=
  if qualifies section then
    match id section with Some x => x | None => current end
  else current.

Definition current_section (d : document) : jstring :=
  fold_left scan_step d [].

Definition href_is (h : jstring) (e : element) : bool :=
  match href e with
  | Some x => strictEq x h
  | None => false
  end.

(** The body of the second loop of [updateActiveNavOnScroll], which runs
    over the [.list-group-item-action] elements. *)
Definition marked (current : jstring) (link : element) : element :=
  if is_nav_item link then
    let link' := with_classList (DOM.remove active) link in
    if href_is (str "#" ++ current) link'
    then with_classList (DOM.add active) link'
    else link'
  else link.

(** [updateActiveNavOnScroll()] *)
Definition updateActiveNavOnScroll (d : document) : document :=
  let current := current_section d in
  marked current <$> d.

(** Scrolling and resizing move the elements: only [top] changes. *)
Definition relayout (tops : nat -> Q) (d : document) : document :=
  imap (fun i e =>
          {| tag := tag e; id := id e; href := href e;
             classList := classList e; top := tops i |}) d.

(** What can happen to the page as far as the navigator is concerned. *)
Inductive step : document -> document -> Prop :=
| step_click this d : step d (snd (on_click this d))
| step_scroll d : step d (updateActiveNavOnScroll d)
| step_layout tops d : step d (relayout tops d).

Inductive steps : document -> document -> Prop :=
| steps_refl d : steps d d
| steps_next d1 d2 d3 : steps d1 d2 -> step d2 d3 -> steps d1 d3.

(** The navigation items that carry the active state. *)
Definition active_nav_items (d : document) : list element :=
  List.filter (fun e => is_nav_item e && is_active e) d.

(** The [href] attributes of the navigation items that have one. *)
Definition nav_hrefs (d : document) : list jstring :=
  omap (fun e => if is_nav_item e then href e else None) d.

(** "Exactly one link bears the active state, the clicked one", the links
    being the in-page anchors. *)
Definition sole_active_link (this : nat) (d : document) : Prop :=
  forall j e, d !! j = Some e -> is_anchor_link e = true ->
    (is_active e = true <-> j = this).

(** Sample elements and pages. *)
Definition plain_link (h : string) : element :=
  {| tag := str "a"; id := None; href := Some (str h); classList := [];
     top := 0 |}.

Definition nav_link (h : string) : element :=
  {| tag := str "a"; id := None; href := Some (str h);
     classList := [str "list-group-item"; str "list-group-item-action"];
     top := 0 |}.

Definition section_at (x : string) (t : Q) : element :=
  {| tag := str "section"; id := Some (str x); href := None; classList := [];
     top := t |}.

(** A sidebar whose two entries point at the same section. *)
Definition twin_nav_page : document :=
  [nav_link "#intro"; nav_link "#intro"; section_at "intro" 0].

(** Two in-page anchors in the running text, outside the sidebar. *)
Definition body_links_page : document :=
  [plain_link "#intro"; plain_link "#usage";
   section_at "intro" 0; section_at "usage" (400 # 1)].

(** A sidebar with one entry per section. *)
Definition sidebar_page : document :=
  [nav_link "#intro"; nav_link "#usage";
   section_at "intro" (-(300 # 1)); section_at "usage" (80 # 1);
   section_at "errors" (700 # 1)].

End Navigator.

(** ** The code-block copier *)

Module Copier.

Definition quoted (s : string) : jstring := 34 :: str s ++ [34].

Definition copy_icon : jstring :=
  str "<i class=" ++ quoted "fas fa-copy" ++ str "></i>".
Definition check_icon : jstring :=
  str "<i class=" ++ quoted "fas fa-check text-success" ++ str "></i>".

Definition secondary : jstring := str "btn-outline-secondary".
Definition success : jstring := str "btn-outline-success".

(** The control. Reading [innerHTML] gives back the markup last written,
    which holds for the two icons written here. *)
Record button : Type := {
  innerHTML : jstring;
  classList : list jstring;
  title : jstring
}.

(** The control appended to a code block at load time. *)
Definition new_button : button := {|
  innerHTML := copy_icon;
  classList := [str "btn"; str "btn-sm"; secondary; str "position-absolute";
                str "top-0"; str "end-0"; str "m-2"];
  title := str "Copy to clipboard"
|}.

(** A pending [setTimeout] callback: when it is due, in milliseconds, and
    the [originalHTML] its closure holds. *)
Record timer : Type := {
  due : N;
  originalHTML : jstring
}.

Record state : Type := {
  clock : N;
  copyButton : button;
  pending : list timer
}.

(** The timeout callback. *)
Definition revert (t : timer) (b : button) : button := {|
  innerHTML := originalHTML t;
  classList := DOM.add secondary (DOM.remove success (classList b));
  title := title b
|}.

(** The callback of [writeText(code).then]. *)
Definition on_copied (s : state) : state :=
  let b := copyButton s in
  let originalHTML := innerHTML b in
  {| clock := clock s;
     copyButton := {|
       innerHTML := check_icon;
       classList := DOM.add success (DOM.remove secondary (classList b));
       title := title b |};
     pending := pending s ++ [{| due := clock s + 2000;
                                 originalHTML := originalHTML |}] |}.

(** The callback of [.catch]: the error goes to the console only. *)
Definition on_copy_failed (s : state) : state := s.

(** Time passes until [t]: the callbacks that are due run, in the order
    they were registered (all have the same delay, so that is the order in
    which they fall due), and the others stay pending. *)
Definition advance (t : N) (s : state) : state :=
  if t <? clock s then s
  else
    {| clock := t;
       copyButton :=
         fold_left (fun b tm => revert tm b)
           (List.filter (fun tm => due tm <=? t) (pending s)) (copyButton s);
       pending := List.filter (fun tm => negb (due tm <=? t)) (pending s) |}.

Inductive event : Type :=
| CopySucceeded (at_ms : N)
| CopyFailed (at_ms : N)
| Elapsed (at_ms : N).

Definition handle (s : state) (e : event) : state :=
  match e with
  | CopySucceeded t => on_copied (advance t s)
  | CopyFailed t => on_copy_failed (advance t s)
  | Elapsed t => advance t s
  end.

Definition run (es : list event) (s : state) : state := fold_left handle es s.

Definition initial : state :=
  {| clock := 0; copyButton := new_button; pending := [] |}.

End Copier.

(** ** The documentation search *)

Module Search.

(** An element of the page: whether [.documentation-content section]
    selects it, its text content and its display style. *)
Record element : Type := {
  is_doc_section : bool;
  textContent : jstring;
  display : jstring
}.

Section Handler.

(** [String.prototype.toLowerCase], the case mapping of the engine. *)
Variable toLowerCase : jstring -> jstring.

Definition set_display (s : jstring) (e : element) : element :=
  {| is_doc_section := is_doc_section e;
     textContent := textContent e;
     display := s |}.

(** The input listener of [#doc-search], given the value of the field. *)
Definition on_input (value : jstring) (d : list element) : list element :=
  let searchTerm := toLowerCase value in
  (fun section =>
     if is_doc_section section then
       let text := toLowerCase (textContent section) in
       if includes text searchTerm || strictEq searchTerm []
       then set_display (str "block") section
       else set_display (str "none") section
     else section) <$> d.

Definition shown (e : element) : Prop := display e = str "block".

End Handler.

End Search.

(** ** Instances of what the engine supplies, for concrete runs *)

(** Numbers that are integers, printed in decimal. *)
Fixpoint decimal_digits (fuel : nat) (n : N) (acc : jstring) : jstring :=
  match fuel with
  | O => acc
  | S fuel' =>
      let acc' := (48 + n mod 10) :: acc in
      if n / 10 =? 0 then acc' else decimal_digits fuel' (n / 10) acc'
  end.

Definition print_integer (z : Z) : jstring :=
  let d := decimal_digits (S (N.to_nat (N.log2 (Z.abs_N z)))) (Z.abs_N z) [] in
  if (z <? 0)%Z then 45 :: d else d.

Definition read_natural (s : jstring) : N :=
  fold_left (fun a c => 10 * a + (c - 48)) s 0.

Definition read_integer (s : jstring) : Z :=
  match s with
  | 45 :: s' => Z.opp (Z.of_N (read_natural s'))
  | _ => Z.of_N (read_natural s)
  end.

(** A server that is down, and one that answers every request alike. *)
Definition unreachable : ApiTester.request -> ApiTester.settled (@ApiTester.response Z) :=
  fun _ => ApiTester.Rejected (str "Failed to fetch").

Definition answering (r : @ApiTester.response Z) :
    ApiTester.request -> ApiTester.settled (@ApiTester.response Z) :=
  fun _ => ApiTester.Fulfilled r.

(** A response with status 200 and a JSON body. *)
Definition valid_response : @ApiTester.response Z := {|
  ApiTester.status := 200;
  ApiTester.json :=
    ApiTester.Fulfilled
      (JSON.Object [(str "valid", JSON.Bool true);
                    (str "score", JSON.Number 95%Z)])
|}.

Definition blank_panel : ApiTester.panel := {|
  ApiTester.output_textContent := [];
  ApiTester.output_className := str "bg-dark p-3 rounded";
  ApiTester.result_display := str "none"
|}.

(** A page with two documentation sections and a footer. *)
Definition docs_sections : list Search.element := [
  {| Search.is_doc_section := true;
     Search.textContent := str "Authentication: send your API key";
     Search.display := [] |};
  {| Search.is_doc_section := true;
     Search.textContent := str "Rate limits";
     Search.display := [] |};
  {| Search.is_doc_section := false;
     Search.textContent := str "Footer";
     Search.display := [] |}
].

(** A lower-casing of the ASCII letters, to instantiate the engine's. *)
Definition ascii_lower (s : jstring) : jstring :=
  List.map (fun c => if (65 <=? c) && (c <=? 90) then c + 32 else c) s.

(** ** The exported utility [formatApiResponse] *)

Module Utility.

Section Format.

Context {number : Type}.
Variable NumberToString : number -> jstring.

(** [formatApiResponse(response, isError = false)]; [None] is the argument
    left out. *)
Definition formatApiResponse (response : JSON.value number)
    (isError : option bool) : jstring :=
  let isError := match isError with Some b => b | None => false end in
  let className :=
    if isError then str "border-danger" else str "border-success" in
  str "<pre class=" ++ [34] ++ str "bg-dark p-3 rounded border " ++ className
    ++ [34] ++ str ">" ++ JSON.stringify2 NumberToString response
    ++ str "</pre>".

End Format.

(** The code units [JSON.stringify] writes as they are: no control
    character, quote, backslash or surrogate. *)
Definition written_as_is (c : N) : bool :=
  (0x20 <=? c) && negb (c =? 34) && negb (c =? 92) &&
  negb (JSON.isLeadingSurrogate c || JSON.isTrailingSurrogate c).

End Utility.

(** ** The code blocks and their copy controls *)

Module CodeBlock.

(** The page as a tree: an element with its tag, class list, [position]
    style and children, or a text node. *)
Inductive node : Type :=
| Element (tag : jstring) (classList : list jstring) (position : jstring)
    (children : list node)
| Text (data : jstring).

(** [node.textContent] *)
Fixpoint textContent (n : node) : jstring :=
  match n with
  | Text d => d
  | Element _ _ _ ch => flat_map textContent ch
  end.

(** The elements below a node, in tree order. *)
Fixpoint elements (n : node) : list node :=
  match n with
  | Text _ => []
  | Element _ _ _ ch =>
      flat_map (fun c =>
                  match c with
                  | Text _ => []
                  | Element _ _ _ _ => c :: elements c
                  end) ch
  end.

Definition has_tag (t : jstring) (n : node) : bool :=
  match n with
  | Element t' _ _ _ => strictEq t' t
  | Text _ => false
  end.

Definition has_class (c : jstring) (n : node) : bool :=
  match n with
  | Element _ cl _ _ => DOM.contains c cl
  | Text _ => false
  end.

(** [node.querySelector(tag)]: the first element below the node with that
    tag. *)
Definition querySelector (t : jstring) (n : node) : option node :=
  List.find (has_tag t) (elements n).

(** The control created for a block: its class name, and the icon its
    [innerHTML] parses to. *)
Definition copyButton : node :=
  Element (str "button")
    [str "btn"; str "btn-sm"; str "btn-outline-secondary";
     str "position-absolute"; str "top-0"; str "end-0"; str "m-2"]
    []
    [Element (str "i") [str "fas"; str "fa-copy"] [] []].

(** The loop over [.code-block] at load time, on the tree below (and
    including) a node: each such element becomes [position: relative] and
    gets the control as its last child. *)
Fixpoint initialize (n : node) : node :=
  match n with
  | Text d => Text d
  | Element t cl pos ch =>
      let ch' := List.map initialize ch in
      if DOM.contains (str "code-block") cl
      then Element t cl (str "relative") (ch' ++ [copyButton])
      else Element t cl pos ch'
  end.

(** What the click listener of a block's control does first: it reads
    [block.querySelector('code').textContent], which throws when the block
    has no [code] element, and hands the text to the clipboard. *)
Inductive outcome : Type :=
| WriteText (code : jstring)
| TypeError.

Definition on_click (block : node) : outcome :=
  match querySelector (str "code") block with
  | Some code => WriteText (textContent code)
  | None => TypeError
  end.

(** The elements of a tree, the root included when it is one. *)
Definition all_elements (n : node) : list node :=
  match n with
  | Text _ => []
  | Element _ _ _ _ => n :: elements n
  end.

(** A page with a highlighted code block, and a block without code. *)
Definition sample_page : node :=
  Element (str "div") [str "documentation-content"] []
    [Element (str "div") [str "code-block"] []
       [Element (str "pre") [] []
          [Element (str "code") []  []
             [Element (str "span") [str "kw"] [] [Text (str "curl")];
              Text (str " -X POST /api/validate")]]];
     Element (str "div") [str "code-block"] [] [Text (str "no code here")]].

End CodeBlock.

(** ** What the copier keeps true *)

(** What holds of the control in every state. *)
Definition control_ok (b : Copier.button) : Prop :=
  DOM.contains Copier.success (Copier.classList b) =
    negb (DOM.contains Copier.secondary (Copier.classList b)) /\
  (Copier.innerHTML b = Copier.copy_icon \/
   Copier.innerHTML b = Copier.check_icon) /\
  Copier.title b = Copier.title Copier.new_button /\
  forall c, c <> Copier.success -> c <> Copier.secondary ->
    DOM.contains c (Copier.classList b) =
    DOM.contains c (Copier.classList Copier.new_button).

(** What holds of the pending timers in every state. *)
Definition timers_ok (s : Copier.state) : Prop :=
  Forall (fun tm => Copier.due tm <= Copier.clock s + 2000 /\
                    (Copier.originalHTML tm = Copier.copy_icon \/
                     Copier.originalHTML tm = Copier.check_icon))
    (Copier.pending s).

(** ** Notions used to state what the navigator does *)

(** The click on the element at position [this] finds its target: the
    element is an in-page anchor and its fragment is the id of an element
    of the page. *)
Definition resolves (this : nat) (d : Navigator.document) : Prop :=
  exists link h target,
    d !! this = Some link /\
    Navigator.is_anchor_link link = true /\
    Navigator.href link = Some h /\
    Navigator.getElementById (substring1 h) d = Some target.

(** [s] is the section that appears latest in document order among the
    sections with an id whose top is at most 100. *)
Definition current_section_is (d : Navigator.document) (s : Navigator.element) :
    Prop :=
  exists d1 d2,
    d = d1 ++ s :: d2 /\
    Navigator.is_section_with_id s = true /\
    (Navigator.top s <= 100 # 1)%Q /\
    forall s', In s' d2 -> Navigator.is_section_with_id s' = true ->
               ~ (Navigator.top s' <= 100 # 1)%Q.

(** "Exactly the navigation items whose fragment equals the current
    section's id are active", [d'] being the page after the scroll handler
    has run on [d]: an item is active only if there is a current section
    and the item's href is ['#'] followed by its id. *)
Definition only_current_section_marked (d d' : Navigator.document) : Prop :=
  forall j link link',
    d !! j = Some link -> d' !! j = Some link' ->
    Navigator.is_nav_item link = true ->
    (Navigator.is_active link' = true <->
     exists s x,
       current_section_is d s /\ Navigator.id s = Some x /\
       Navigator.href link = Some (str "#" ++ x)).

(** A sidebar with a "top" entry, scrolled to above the first section. *)
Definition above_sections_page : Navigator.document :=
  [Navigator.nav_link "#"; Navigator.nav_link "#intro";
   Navigator.section_at "intro" (300 # 1)].

(** ** The API tester form, step by step *)

(** The submit listener again, with what the one-step reading above takes
    for granted made explicit: the elements it relies on may be missing
    from the page, and it runs up to its first [await] and is resumed when
    the awaited promise settles. *)
Module ApiTesterSteps.
Import JSON ApiTester.

Section Listener.

Context {number : Type}.
Variable NumberToString : number -> jstring.

Record output : Type := {
  textContent : jstring;
  className : jstring
}.

(** The page at submit time: the values of [#api-key] and [#test-email],
    [#api-test-output] and the display style of [#api-test-result]; [None]
    where the page has no such element. *)
Record page : Type := {
  api_key : option jstring;
  test_email : option jstring;
  apiTestOutput : option output;
  apiTestResult : option jstring
}.

(** How the listener's first run ends: with an uncaught [TypeError], by
    returning after the alert, or suspended at [await fetch(...)] with the
    panel as it stands. *)
Inductive started : Type :=
| Threw (effects : list effect) (p : page)
| Alerted (effects : list effect) (p : page)
| Suspended (effects : list effect) (w : panel) (req : request).

Definition placeholder : jstring := str "Testing API...".

(** From [e.preventDefault()] to the call of [fetch]. *)
Definition start (p : page) : started :=
  match api_key p with
  | None => Threw [PreventDefault] p
  | Some apiKey =>
      match test_email p with
      | None => Threw [PreventDefault] p
      | Some email =>
          if not_ apiKey || not_ email then
            Alerted [PreventDefault; Alert missing_message] p
          else
            match apiTestOutput p with
            | None => Threw [PreventDefault] p
            | Some o =>
                let o' := {| textContent := placeholder;
                             className := className o |} in
                match apiTestResult p with
                | None =>
                    Threw [PreventDefault]
                      {| api_key := api_key p; test_email := test_email p;
                         apiTestOutput := Some o';
                         apiTestResult := None |}
                | Some _ =>
                    let req := validate_request NumberToString apiKey email in
                    Suspended [PreventDefault; Fetch req]
                      {| output_textContent := placeholder;
                         output_className := className o;
                         result_display := str "block" |}
                      req
                end
            end
      end
  end.

(** The [catch] block. *)
Definition caught (message : jstring) (w : panel) : panel :=
  {| output_textContent :=
       stringify2 NumberToString (failure_report message);
     output_className := danger_class;
     result_display := result_display w |}.

(** After [fetch] has settled: suspended again at
    [await response.json()], or finished in the [catch] block. *)
Inductive fetched : Type :=
| AwaitingJson (w : panel) (response : @response number)
| Finished (w : panel).

Definition fetch_settled (outcome : settled (@response number)) (w : panel) :
    fetched :=
  match outcome with
  | Fulfilled response => AwaitingJson w response
  | Rejected message => Finished (caught message w)
  end.

(** After [response.json()] has settled. *)
Definition json_settled (response : @response number)
    (outcome : settled (value number)) (w : panel) : panel :=
  match outcome with
  | Fulfilled result =>
      {| output_textContent := stringify2 NumberToString result;
         output_className :=
           if ok response then success_class else danger_class;
         result_display := result_display w |}
  | Rejected message => caught message w
  end.

(** The listener run to its end against a network: the effects and the
    panel, when the first run got as far as the request. *)
Definition completed (network : request -> settled (@response number))
    (p : page) : option (list effect * panel) :=
  match start p with
  | Suspended effects w req =>
      match fetch_settled (network req) w with
      | AwaitingJson w' response =>
          Some (effects, json_settled response (json response) w')
      | Finished w' => Some (effects, w')
      end
  | _ => None
  end.

End Listener.

End ApiTesterSteps.

(** A page with every element of the tester, the fields filled, showing
    the result of an earlier successful test. *)
Definition tested_page : ApiTesterSteps.page := {|
  ApiTesterSteps.api_key := Some (str "key-123");
  ApiTesterSteps.test_email := Some (str "a@b.co");
  ApiTesterSteps.apiTestOutput :=
    Some {| ApiTesterSteps.textContent := str "{}";
            ApiTesterSteps.className := ApiTester.success_class |};
  ApiTesterSteps.apiTestResult := Some (str "block")
|}.

(** * Properties *)

(** ** The matcher agrees with the meaning of patterns *)

Section RegExpFacts.
Import RegExp.

Lemma matches_nil_nullable r s : matches r s -> s = [] -> nullable r = true.
Proof.
  induction 1; intros E; simpl; try discriminate; try reflexivity.
  - apply app_eq_nil in E as [-> ->]. rewrite IHmatches1, IHmatches2; auto.
  - rewrite IHmatches; auto.
  - rewrite IHmatches; auto using orb_true_r.
Qed.

Lemma nullable_matches_nil r : nullable r = true -> matches r [].
Proof.
  induction r; simpl; intros E; try discriminate.
  - constructor.
  - apply andb_true_iff in E as [E1 E2].
    apply (m_seq r1 r2 [] []); auto.
  - apply orb_true_iff in E as [E|E]; [apply m_alt_l | apply m_alt_r]; auto.
  - constructor.
Qed.

Lemma matches_unit r c :
  unit_matches r c = true -> matches r [c].
Proof.
  destruct r; simpl; intros E; try discriminate.
  - apply N.eqb_eq in E as ->. constructor.
  - constructor.
  - constructor; exact E.
  - constructor. now apply negb_true_iff.
Qed.

Lemma matches_after r s' :
  matches r s' -> forall c s, s' = c :: s -> matches (after c r) s.
Proof.
  induction 1; intros a t E; simpl; try discriminate.
  - injection E as -> <-. rewrite N.eqb_refl. constructor.
  - injection E as -> <-. constructor.
  - injection E as -> <-. rewrite H. constructor.
  - injection E as -> <-. rewrite H. constructor.
  - destruct s1 as [|b s1]; simpl in E.
    + subst s2. rewrite (matches_nil_nullable _ _ H eq_refl).
      apply m_alt_r. eauto.
    + injection E as -> <-.
      assert (matches (Seq (after a r1) r2) (s1 ++ s2))
        by (constructor; eauto).
      destruct (nullable r1); [apply m_alt_l|]; assumption.
  - apply m_alt_l. eauto.
  - apply m_alt_r. eauto.
  - destruct s1 as [|b s1]; simpl in E.
    + subst s2. apply (IHmatches2 a t eq_refl).
    + injection E as -> <-. constructor; eauto.
Qed.

Lemma after_matches r : forall c s, matches (after c r) s -> matches r (c :: s).
Proof.
  induction r; intros a t; simpl; intros M.
  - inversion M.
  - inversion M.
  - destruct (a =? c) eqn:E; inversion M; subst.
    apply N.eqb_eq in E as ->. constructor.
  - inversion M; subst. constructor.
  - destruct (existsb (atom_mem a) l) eqn:E; inversion M; subst.
    now constructor.
  - destruct (existsb (atom_mem a) l) eqn:E; inversion M; subst.
    now constructor.
  - destruct (nullable r1) eqn:E.
    + inversion M; subst.
      * match goal with H : matches (Seq _ _) _ |- _ => inversion H; subst end.
        apply (m_seq r1 r2 (a :: s1) s2); auto.
      * apply (m_seq r1 r2 [] (a :: t)); auto using nullable_matches_nil.
    + inversion M; subst. apply (m_seq r1 r2 (a :: s1) s2); auto.
  - inversion M; subst; [apply m_alt_l | apply m_alt_r]; auto.
  - inversion M; subst. apply (m_star_step r (a :: s1) s2); auto.
Qed.

Lemma accepts_matches r s : accepts r s = true <-> matches r s.
Proof.
  revert r. induction s as [|c s IH]; intros r; simpl.
  - split; [apply nullable_matches_nil | intros M; eapply matches_nil_nullable; eauto].
  - rewrite IH. split; [apply after_matches | intros M; eapply matches_after; eauto].
Qed.

(** [r+] over a one-unit term: every unit of a non-empty string matches. *)
Lemma matches_star_units r s :
  (forall t, matches r t -> exists c, t = [c] /\ unit_matches r c = true) ->
  matches (Star r) s -> forallb (unit_matches r) s = true.
Proof.
  intros U M. remember (Star r) as q eqn:Q.
  induction M; try discriminate; injection Q as ->; [reflexivity|].
  destruct (U _ M1) as (c & -> & Hc). simpl. rewrite Hc. simpl. auto.
Qed.

Lemma units_matches_star r s :
  forallb (unit_matches r) s = true -> matches (Star r) s.
Proof.
  induction s as [|c s IH]; simpl; intros E; [constructor|].
  apply andb_true_iff in E as [E1 E2].
  apply (m_star_step r [c] s); auto using matches_unit.
Qed.

End RegExpFacts.

(** ** [isValidEmail] *)

Section EmailFacts.
Import RegExp Email.

Lemma unit_notSpaceAt c : unit_matches notSpaceAt c = plain c.
Proof. unfold plain. simpl. now rewrite orb_false_r. Qed.

Lemma matches_notSpaceAt t :
  matches notSpaceAt t -> exists c, t = [c] /\ unit_matches notSpaceAt c = true.
Proof.
  intros M. inversion M; subst. exists c. split; [reflexivity|].
  simpl. now apply negb_true_iff.
Qed.

Lemma forallb_plain s :
  forallb (unit_matches notSpaceAt) s = forallb plain s.
Proof.
  induction s as [|c s IH]; [reflexivity|].
  cbn [forallb]. now rewrite IH, unit_notSpaceAt.
Qed.

Lemma matches_plus_plain s :
  matches (Plus notSpaceAt) s <-> s <> [] /\ forallb plain s = true.
Proof.
  split.
  - intros M. inversion M as [| | | | |r1 r2 s1 s2 M1 M2| | | |]; subst.
    destruct (matches_notSpaceAt _ M1) as (c & -> & Hc).
    split; [discriminate|].
    apply (matches_star_units _ _ matches_notSpaceAt) in M2.
    rewrite <- forallb_plain. cbn [forallb app]. now rewrite Hc, M2.
  - intros [Hne Hall]. destruct s as [|c s]; [contradiction|].
    rewrite <- forallb_plain in Hall. cbn [forallb] in Hall.
    apply andb_true_iff in Hall as [Hc Hs].
    apply (m_seq notSpaceAt (Star notSpaceAt) [c] s).
    + now apply matches_unit.
    + now apply units_matches_star.
Qed.

Lemma matches_char c s : matches (Char c) s <-> s = [c].
Proof.
  split; [intros M; now inversion M | intros ->; constructor].
Qed.

Lemma matches_seq r1 r2 s :
  matches (Seq r1 r2) s <->
  exists s1 s2, s = s1 ++ s2 /\ matches r1 s1 /\ matches r2 s2.
Proof.
  split.
  - intros M. inversion M; subst. eauto.
  - intros (s1 & s2 & -> & M1 & M2). now constructor.
Qed.

Lemma isValidEmail_shape s : isValidEmail s = true <-> pattern_shape s.
Proof.
  unfold isValidEmail, test, pattern_shape. simpl searched.
  rewrite accepts_matches. split.
  - intros M.
    apply matches_seq in M as (loc & r1 & -> & Mloc & M).
    apply matches_seq in M as (a & r2 & -> & Ma & M).
    apply matches_seq in M as (d1 & r3 & -> & Md1 & M).
    apply matches_seq in M as (p & d2 & -> & Mp & Md2).
    apply matches_char in Ma as ->. apply matches_char in Mp as ->.
    apply matches_plus_plain in Mloc as [? ?].
    apply matches_plus_plain in Md1 as [? ?].
    apply matches_plus_plain in Md2 as [? ?].
    exists loc, d1, d2. simpl. auto 10.
  - intros (loc & d1 & d2 & -> & ? & ? & ? & ? & ? & ?).
    apply matches_seq. exists loc, (at_sign :: d1 ++ dot :: d2).
    split; [reflexivity|]. split; [now apply matches_plus_plain|].
    apply matches_seq. exists [at_sign], (d1 ++ dot :: d2).
    split; [reflexivity|]. split; [constructor|].
    apply matches_seq. exists d1, (dot :: d2).
    split; [reflexivity|]. split; [now apply matches_plus_plain|].
    apply matches_seq. exists [dot], d2.
    split; [reflexivity|]. split; [constructor|now apply matches_plus_plain].
Qed.

(** C2, as amended. [isValidEmail] accepts ["a@b.co"] and rejects
    ["not-an-email"] and ["a@b"]; it accepts a string exactly when the
    string is a non-empty local part, an ['@'] and a domain, with no white
    space and no ['@'] in either part, where the domain has a dot with at
    least one code unit before it and at least one after it. *)
Theorem isValidEmail_accepts_pattern_shape :
  isValidEmail (str "a@b.co") = true /\
  isValidEmail (str "not-an-email") = false /\
  isValidEmail (str "a@b") = false /\
  forall s, isValidEmail s = true <-> pattern_shape s.
Proof.
  repeat split; try reflexivity; apply isValidEmail_shape.
Qed.

(** C2 as stated fails: ["a@.co"] is a local part, an ['@'] and a domain
    with a dot, free of white space and further ['@'], yet it is
    rejected. *)
Lemma isValidEmail_rejects_leading_dot_domain :
  ~ (isValidEmail (str "a@.co") = true <-> documented_shape (str "a@.co")).
Proof.
  intros [_ H].
  assert (D : documented_shape (str "a@.co")).
  { exists (str "a"), (str ".co"). repeat split; try reflexivity.
    - discriminate.
    - left. reflexivity. }
  specialize (H D). vm_compute in H. discriminate.
Qed.

End EmailFacts.

(** ** A quoted string reads back as itself *)

Section JSONFacts.
Import JSON.

Context {number : Type}.
Variable NumberToString : number -> jstring.
Variable StringToNumber : jstring -> number.

Lemma hexValue_hexDigit d : d < 16 -> hexValue (hexDigit d) = Some d.
Proof.
  intros Hd. unfold hexDigit, hexValue.
  destruct (d <? 10) eqn:E.
  - apply N.ltb_lt in E.
    replace ((48 <=? 48 + d) && (48 + d <=? 57)) with true.
    + f_equal. lia.
    + symmetry. apply andb_true_iff. split; apply N.leb_le; lia.
  - apply N.ltb_ge in E.
    replace ((48 <=? 87 + d) && (87 + d <=? 57)) with false.
    + replace ((97 <=? 87 + d) && (87 + d <=? 102)) with true.
      * f_equal. lia.
      * symmetry. apply andb_true_iff. split; apply N.leb_le; lia.
    + symmetry. apply andb_false_iff. right. apply N.leb_gt. lia.
Qed.

Lemma hex4_UnicodeEscape c :
  c < 65536 ->
  hex4 (hexDigit ((c / 4096) mod 16)) (hexDigit ((c / 256) mod 16))
       (hexDigit ((c / 16) mod 16)) (hexDigit (c mod 16)) = Some c.
Proof.
  intros Hc. unfold hex4.
  rewrite !hexValue_hexDigit by (apply N.mod_lt; discriminate).
  f_equal.
  pose proof (N.div_mod c 16 ltac:(discriminate)) as H0.
  pose proof (N.div_mod (c / 16) 16 ltac:(discriminate)) as H1.
  pose proof (N.div_mod (c / 256) 16 ltac:(discriminate)) as H2.
  rewrite N.Div0.div_div in H1, H2.
  change (16 * 16) with 256 in *. change (256 * 16) with 4096 in *.
  assert (c / 4096 < 16) by (apply N.Div0.div_lt_upper_bound; lia).
  rewrite (N.mod_small (c / 4096) 16) by assumption.
  lia.
Qed.

Lemma unquote_escape a b c d u rest :
  hex4 a b c d = Some u ->
  unquote (92 :: 117 :: a :: b :: c :: d :: rest) = consUnit u (unquote rest).
Proof. intros H. simpl. now rewrite H. Qed.

Lemma unquote_UnicodeEscape c rest :
  c < 65536 ->
  unquote (UnicodeEscape c ++ rest) = consUnit c (unquote rest).
Proof.
  intros Hc. unfold UnicodeEscape.
  cbn [app]. apply unquote_escape. now apply hex4_UnicodeEscape.
Qed.

Lemma unquote_plain c rest :
  c <> 34 -> c <> 92 -> 32 <= c ->
  unquote (c :: rest) = consUnit c (unquote rest).
Proof.
  intros H1 H2 H3. cbn [unquote].
  apply N.eqb_neq in H1. apply N.eqb_neq in H2.
  rewrite H1, H2.
  replace (c <? 32) with false by (symmetry; apply N.ltb_ge; lia).
  reflexivity.
Qed.

Lemma surrogate_bounds c :
  isLeadingSurrogate c || isTrailingSurrogate c = true ->
  0xD800 <= c /\ c <= 0xDFFF.
Proof.
  unfold isLeadingSurrogate, isTrailingSurrogate.
  rewrite orb_true_iff, !andb_true_iff, !N.leb_le. lia.
Qed.

Lemma unquote_quoteUnit c rest :
  unquote (quoteUnit c ++ rest) = consUnit c (unquote rest).
Proof.
  unfold quoteUnit.
  repeat match goal with
  | |- context [if ?x =? ?y then _ else _] =>
      destruct (N.eqb_spec x y) as [->|?]; [reflexivity|]
  end.
  destruct (c <? 32) eqn:E; cbn [orb].
  - apply N.ltb_lt in E. apply unquote_UnicodeEscape. lia.
  - apply N.ltb_ge in E.
    destruct (isLeadingSurrogate c || isTrailingSurrogate c) eqn:S.
    + apply surrogate_bounds in S. apply unquote_UnicodeEscape. lia.
    + cbn [app]. now apply unquote_plain.
Qed.

Lemma unquote_quoteUnits_bounded n : forall s rest,
  (length s <= n)%nat ->
  unquote (quoteUnits s ++ 34 :: rest) = Some (s, rest).
Proof.
  induction n as [|n IH]; intros s rest Hn.
  - destruct s; [reflexivity | simpl in Hn; lia].
  - destruct s as [|c s]; [reflexivity|].
    simpl in Hn. cbn [quoteUnits].
    destruct (isLeadingSurrogate c) eqn:L.
    + assert (Hc : 0xD800 <= c /\ c <= 0xDFFF)
        by (apply surrogate_bounds; now rewrite L).
      destruct s as [|d s].
      * rewrite unquote_UnicodeEscape by lia. reflexivity.
      * destruct (isTrailingSurrogate d) eqn:T.
        -- assert (Hd : 0xD800 <= d /\ d <= 0xDFFF)
             by (apply surrogate_bounds; rewrite T; apply orb_true_r).
           simpl in Hn. cbn [app].
           rewrite unquote_plain by lia. rewrite unquote_plain by lia.
           rewrite IH by lia. reflexivity.
        -- rewrite <- app_assoc, unquote_UnicodeEscape by lia.
           rewrite IH by lia. reflexivity.
    + rewrite <- app_assoc, unquote_quoteUnit.
      rewrite IH by lia. reflexivity.
Qed.

Lemma unquote_quoteUnits s rest :
  unquote (quoteUnits s ++ 34 :: rest) = Some (s, rest).
Proof. apply (unquote_quoteUnits_bounded (length s)). lia. Qed.

(** The text of [JSON.stringify({error: v}, null, 2)]. *)
Lemma stringify2_error_object (v : jstring) :
  stringify2 NumberToString (Object [(str "error", String v)]) =
  [123; 10; 32; 32; 34; 101; 114; 114; 111; 114; 34; 58; 32; 34]
    ++ quoteUnits v ++ [34; 10; 125].
Proof.
  assert (E : QuoteJSONString (str "error") =
              [34; 101; 114; 114; 111; 114; 34]) by (vm_compute; reflexivity).
  unfold stringify2. cbn [serialize List.map fst snd bracketed join].
  rewrite E. unfold QuoteJSONString. cbn [app].
  rewrite <- app_assoc. reflexivity.
Qed.

Lemma readValue_error_object (fuel : nat) (v : jstring) :
  readValue StringToNumber (S (S (S fuel)))
    ([123; 10; 32; 32; 34; 101; 114; 114; 111; 114; 34; 58; 32; 34]
       ++ quoteUnits v ++ [34; 10; 125]) =
  Some (Object [(str "error", String v)], []).
Proof.
  simpl. rewrite unquote_quoteUnits. reflexivity.
Qed.

(** It is a JSON text, and it denotes the object again. *)
Lemma parse_error_object (v : jstring) :
  parse StringToNumber
    (stringify2 NumberToString (Object [(str "error", String v)])) =
  Some (Object [(str "error", String v)]).
Proof.
  rewrite stringify2_error_object. unfold parse.
  cbn [app length Nat.add].
  set (fuel := (_ + _)%nat).
  change (123 :: ?l) with
    ([123; 10; 32; 32; 34; 101; 114; 114; 111; 114; 34; 58; 32; 34]
       ++ quoteUnits v ++ [34; 10; 125]).
  rewrite readValue_error_object. reflexivity.
Qed.

(** The text of [JSON.stringify({email: v})] reads back as the object. *)
Lemma stringify_email_object (v : jstring) :
  stringify NumberToString (Object [(str "email", String v)]) =
  [123; 34; 101; 109; 97; 105; 108; 34; 58; 34] ++ quoteUnits v ++ [34; 125].
Proof.
  assert (E : QuoteJSONString (str "email") =
              [34; 101; 109; 97; 105; 108; 34]) by (vm_compute; reflexivity).
  unfold stringify. cbn [serialize List.map fst snd bracketed join].
  rewrite E. unfold QuoteJSONString. cbn [app].
  rewrite <- app_assoc. reflexivity.
Qed.

Lemma readValue_email_object (fuel : nat) (v : jstring) :
  readValue StringToNumber (S (S (S fuel)))
    ([123; 34; 101; 109; 97; 105; 108; 34; 58; 34]
       ++ quoteUnits v ++ [34; 125]) =
  Some (Object [(str "email", String v)], []).
Proof.
  simpl. rewrite unquote_quoteUnits. reflexivity.
Qed.

Lemma parse_email_object (v : jstring) :
  parse StringToNumber
    (stringify NumberToString (Object [(str "email", String v)])) =
  Some (Object [(str "email", String v)]).
Proof.
  rewrite stringify_email_object. unfold parse.
  cbn [app length Nat.add].
  set (fuel := (_ + _)%nat).
  change (123 :: ?l) with
    ([123; 34; 101; 109; 97; 105; 108; 34; 58; 34]
       ++ quoteUnits v ++ [34; 125]).
  rewrite readValue_email_object. reflexivity.
Qed.

End JSONFacts.

(** ** Substrings *)

Section StringFacts.

Lemma startsWith_app t post : startsWith t (t ++ post) = true.
Proof.
  induction t as [|a t IH]; [reflexivity|].
  simpl. now rewrite N.eqb_refl, IH.
Qed.

Lemma startsWith_prefix t s :
  startsWith t s = true -> exists post, s = t ++ post.
Proof.
  revert s. induction t as [|a t IH]; intros s; simpl.
  - intros _. now exists s.
  - destruct s as [|b s]; [discriminate|].
    intros E. apply andb_true_iff in E as [E1 E2].
    apply N.eqb_eq in E1 as ->. destruct (IH _ E2) as [post ->].
    now exists post.
Qed.

Lemma includes_startsWith s t : startsWith t s = true -> includes s t = true.
Proof. intros E. destruct s; simpl; now rewrite E. Qed.

(** [includes] is the substring test. *)
Lemma includes_substring s t :
  includes s t = true <-> exists pre post, s = pre ++ t ++ post.
Proof.
  split.
  - induction s as [|c s IH]; simpl; intros E.
    + rewrite orb_false_r in E. apply startsWith_prefix in E as [post E].
      now exists [], post.
    + apply orb_true_iff in E as [E|E].
      * apply startsWith_prefix in E as [post E]. now exists [], post.
      * destruct (IH E) as (pre & post & ->). now exists (c :: pre), post.
  - intros (pre & post & ->).
    induction pre as [|c pre IH]; simpl.
    + apply includes_startsWith, startsWith_app.
    + rewrite IH. apply orb_true_r.
Qed.

Lemma includes_nil s : includes s [] = true.
Proof. apply includes_substring. now exists [], s. Qed.

End StringFacts.

(** ** The API tester form *)

Section ApiTesterFacts.
Import JSON ApiTester.

Context {number : Type}.
Variable NumberToString : number -> jstring.
Variable StringToNumber : jstring -> number.
Variable network : @request -> settled (@response number).

Local Abbreviation submit := (ApiTester.submit NumberToString network).
Local Abbreviation the_request := (validate_request NumberToString).

Lemma submit_missing apiKey email p :
  apiKey = [] \/ email = [] ->
  submit apiKey email p = ([PreventDefault; Alert missing_message], p).
Proof.
  intros [-> | ->]; [|destruct apiKey]; destruct p; reflexivity.
Qed.

Lemma submit_filled apiKey email p :
  apiKey <> [] -> email <> [] ->
  submit apiKey email p =
  ([PreventDefault; Fetch (the_request apiKey email)],
   match network (the_request apiKey email) with
   | Fulfilled response =>
       match json response with
       | Fulfilled result =>
           rendered (stringify2 NumberToString result)
             (if ok response then success_class else danger_class)
       | Rejected message =>
           rendered (stringify2 NumberToString (failure_report message))
             danger_class
       end
   | Rejected message =>
       rendered (stringify2 NumberToString (failure_report message))
         danger_class
   end).
Proof.
  intros Hk He.
  destruct apiKey as [|a k]; [contradiction|].
  destruct email as [|e m]; [contradiction|].
  unfold ApiTester.submit, on_submit, fetch, try_catch, bind, await. cbn [not_ orb].
  cbn [perform set_textContent set_display update snd fst dom trace app].
  destruct (network _) as [response|message]; [|reflexivity].
  destruct (json response) as [result|message]; [|reflexivity].
  destruct (ok response); reflexivity.
Qed.

Lemma class_names_differ : success_class <> danger_class.
Proof. intros E. vm_compute in E. discriminate. Qed.

(** C1. With the key or the email empty the listener shows the alert and
    makes no request: its effects are the default prevented and the alert,
    and nothing else. *)
Theorem submit_missing_field_alerts_without_request apiKey email p :
  apiKey = [] \/ email = [] ->
  fst (submit apiKey email p) = [PreventDefault; Alert missing_message] /\
  In (Alert missing_message) (fst (submit apiKey email p)) /\
  forall req, ~ In (Fetch req) (fst (submit apiKey email p)).
Proof.
  intros H. rewrite (submit_missing _ _ _ H). cbn [fst].
  split; [reflexivity|]. split; [right; left; reflexivity|].
  intros req [E|[E|[]]]; discriminate.
Qed.

(** C10. With the key or the email empty the result panel is left as it
    was: text, class name and display style are those from before, and no
    loading placeholder is shown. *)
Theorem submit_missing_field_leaves_panel apiKey email p :
  apiKey = [] \/ email = [] ->
  snd (submit apiKey email p) = p.
Proof.
  intros H. now rewrite (submit_missing _ _ _ H).
Qed.

(** C6. When the response's body parses as JSON the output text is the
    pretty-printed body, and the output has the success class exactly when
    the status is within 200..299 and the danger class exactly when it is
    not, whatever the body. *)
Theorem submit_parsed_body_rendered apiKey email p resp result :
  apiKey <> [] -> email <> [] ->
  network (the_request apiKey email) = Fulfilled resp ->
  json resp = Fulfilled result ->
  let p' := snd (submit apiKey email p) in
  output_textContent p' = stringify2 NumberToString result /\
  (output_className p' = success_class <-> 200 <= status resp <= 299) /\
  (output_className p' = danger_class <-> ~ (200 <= status resp <= 299)).
Proof.
  intros Hk He Hnet Hjson p'. subst p'.
  rewrite (submit_filled _ _ _ Hk He), Hnet, Hjson. cbn [snd rendered output_textContent output_className].
  split; [reflexivity|].
  pose proof class_names_differ as D.
  unfold ok. destruct (N.leb_spec 200 (status resp)), (N.leb_spec (status resp) 299);
    cbn [andb]; split; split; intros; try reflexivity; try lia; congruence.
Qed.

(** C7. When the request fails, or the response's body does not parse,
    the output text is the pretty-printed object whose [error] property is
    ["Request failed: "] followed by the failure's message: a JSON text
    that reads back as that object, the message being a substring of the
    property; and the output has the danger class. *)
Theorem submit_failure_rendered apiKey email p message :
  apiKey <> [] -> email <> [] ->
  (network (the_request apiKey email) = Rejected message \/
   exists resp, network (the_request apiKey email) = Fulfilled resp /\
                json resp = Rejected message) ->
  let p' := snd (submit apiKey email p) in
  let shown := str "Request failed: " ++ message in
  output_textContent p' =
    stringify2 NumberToString (Object [(str "error", String shown)]) /\
  parse StringToNumber (output_textContent p') =
    Some (Object [(str "error", String shown)]) /\
  includes shown message = true /\
  output_className p' = danger_class.
Proof.
  intros Hk He Hfail p' shown. subst p'.
  assert (E : snd (submit apiKey email p) =
              rendered (stringify2 NumberToString (failure_report message))
                danger_class).
  { rewrite (submit_filled _ _ _ Hk He). cbn [snd].
    destruct Hfail as [-> | (resp & -> & ->)]; reflexivity. }
  rewrite E. cbn [rendered output_textContent output_className].
  unfold failure_report. fold shown.
  split; [reflexivity|]. split; [apply parse_error_object|].
  split; [|reflexivity].
  apply includes_substring. exists (str "Request failed: "), [].
  now rewrite app_nil_r.
Qed.

End ApiTesterFacts.

(** ** Class lists *)

Section ClassListFacts.

Lemma strictEq_true s t : strictEq s t = true <-> s = t.
Proof. unfold strictEq. apply bool_decide_eq_true. Qed.

Lemma strictEq_false s t : strictEq s t = false <-> s <> t.
Proof. unfold strictEq. apply bool_decide_eq_false. Qed.

Lemma contains_In t l : DOM.contains t l = true <-> In t l.
Proof.
  unfold DOM.contains. rewrite existsb_exists. split.
  - intros (x & Hx & E). apply strictEq_true in E. now subst.
  - intros H. exists t. split; [assumption | now apply strictEq_true].
Qed.

Lemma In_remove c t l : In c (DOM.remove t l) <-> In c l /\ c <> t.
Proof.
  unfold DOM.remove. now rewrite filter_In, negb_true_iff, strictEq_false.
Qed.

Lemma In_add c t l : In c (DOM.add t l) <-> In c l \/ c = t.
Proof.
  unfold DOM.add. destruct (DOM.contains t l) eqn:E.
  - apply contains_In in E. split; [auto | intros [H | ->]; assumption].
  - rewrite in_app_iff. simpl. intuition congruence.
Qed.

Lemma contains_remove_same t l : DOM.contains t (DOM.remove t l) = false.
Proof.
  apply not_true_is_false. rewrite contains_In, In_remove. tauto.
Qed.

Lemma contains_add_same t l : DOM.contains t (DOM.add t l) = true.
Proof. apply contains_In, In_add. now right. Qed.

Lemma contains_remove_other c t l :
  c <> t -> DOM.contains c (DOM.remove t l) = DOM.contains c l.
Proof.
  intros Hne. apply eq_true_iff_eq. rewrite !contains_In, In_remove. tauto.
Qed.

Lemma contains_add_other c t l :
  c <> t -> DOM.contains c (DOM.add t l) = DOM.contains c l.
Proof.
  intros Hne. apply eq_true_iff_eq. rewrite !contains_In, In_add. tauto.
Qed.

End ClassListFacts.

(** ** The section navigator *)

Section NavigatorFacts.
Import Navigator.

Lemma nav_class_not_active : str "list-group-item-action" <> active.
Proof. intros E. vm_compute in E. discriminate. Qed.

Lemma is_nav_item_remove e :
  is_nav_item (with_classList (DOM.remove active) e) = is_nav_item e.
Proof. apply contains_remove_other, nav_class_not_active. Qed.

Lemma is_nav_item_add e :
  is_nav_item (with_classList (DOM.add active) e) = is_nav_item e.
Proof. apply contains_add_other, nav_class_not_active. Qed.

Lemma is_active_remove e :
  is_active (with_classList (DOM.remove active) e) = false.
Proof. apply contains_remove_same. Qed.

Lemma is_active_add e :
  is_active (with_classList (DOM.add active) e) = true.
Proof. apply contains_add_same. Qed.

Lemma href_is_true h e : href_is h e = true <-> href e = Some h.
Proof.
  unfold href_is. destruct (href e) as [x|].
  - rewrite strictEq_true. split; congruence.
  - split; discriminate.
Qed.

Lemma cleared_nav item : is_nav_item (cleared item) = is_nav_item item.
Proof.
  unfold cleared. destruct (is_nav_item item) eqn:E; [|assumption].
  now rewrite is_nav_item_remove.
Qed.

Lemma cleared_inactive item :
  is_nav_item item = true -> is_active (cleared item) = false.
Proof. unfold cleared. intros ->. apply is_active_remove. Qed.

Lemma cleared_href item : href (cleared item) = href item.
Proof. unfold cleared. now destruct (is_nav_item item). Qed.

Lemma marked_nav current link : is_nav_item (marked current link) = is_nav_item link.
Proof.
  unfold marked. destruct (is_nav_item link) eqn:E; [|assumption].
  cbv zeta. destruct (href_is _ _);
    now rewrite ?is_nav_item_add, is_nav_item_remove.
Qed.

Lemma marked_href current link : href (marked current link) = href link.
Proof.
  unfold marked. destruct (is_nav_item link); [|reflexivity].
  cbv zeta. now destruct (href_is _ _).
Qed.

Lemma marked_active current link :
  is_nav_item link = true ->
  is_active (marked current link) = href_is (str "#" ++ current) link.
Proof.
  unfold marked. intros ->. cbv zeta.
  change (href_is (str "#" ++ current) (with_classList (DOM.remove active) link))
    with (href_is (str "#" ++ current) link).
  destruct (href_is _ link); [apply is_active_add | apply is_active_remove].
Qed.

Lemma lookup_updateActiveNavLink this d j :
  updateActiveNavLink this d !! j =
  (fun e => if decide (this = j)
            then with_classList (DOM.add active) (cleared e)
            else cleared e) <$> d !! j.
Proof.
  unfold updateActiveNavLink.
  destruct (decide (this = j)) as [->|Hne].
  - rewrite list_lookup_alter_eq, list_lookup_fmap. now destruct (d !! j).
  - rewrite list_lookup_alter_ne by assumption. apply list_lookup_fmap.
Qed.

Lemma lookup_updateActiveNavOnScroll d j :
  updateActiveNavOnScroll d !! j = marked (current_section d) <$> d !! j.
Proof. unfold updateActiveNavOnScroll. apply list_lookup_fmap. Qed.

(** A click that resolves its target runs [updateActiveNavLink]; any other
    leaves the page as it is. *)
Lemma on_click_cases this d :
  snd (on_click this d) = updateActiveNavLink this d \/
  snd (on_click this d) = d.
Proof.
  unfold on_click. destruct (d !! this) as [link|]; [|now right].
  destruct (is_anchor_link link); [|now right].
  destruct (href link) as [h|]; [|now right].
  destruct (getElementById _ d); [now left | now right].
Qed.

Lemma on_click_resolved this d link h target :
  d !! this = Some link -> is_anchor_link link = true ->
  href link = Some h -> getElementById (substring1 h) d = Some target ->
  on_click this d =
  ([PreventDefault; ScrollIntoView target (str "smooth") (str "start")],
   updateActiveNavLink this d).
Proof.
  intros Hl Ha Hh Ht. unfold on_click. now rewrite Hl, Ha, Hh, Ht.
Qed.

Lemma filter_nothing {A} (P : A -> bool) (l : list A) :
  (forall e, In e l -> P e = false) -> List.filter P l = [].
Proof.
  induction l as [|x l IH]; intros H; [reflexivity|].
  simpl. rewrite (H x) by now left. apply IH. intros e He. apply H. now right.
Qed.

(** If only position [i] can satisfy [P], at most one element does. *)
Lemma filter_single {A} (P : A -> bool) (l : list A) : forall i,
  (forall j e, l !! j = Some e -> P e = true -> j = i) ->
  (length (List.filter P l) <= 1)%nat.
Proof.
  induction l as [|x l IH]; intros i H; [simpl; lia|].
  simpl. destruct (P x) eqn:Px.
  - rewrite filter_nothing; [simpl; lia|].
    intros e He. apply not_true_is_false. intros Pe.
    apply list_elem_of_In, list_elem_of_lookup in He as [j Hj].
    pose proof (H 0%nat x eq_refl Px). pose proof (H (S j) e Hj Pe). lia.
  - destruct i as [|i].
    + rewrite filter_nothing; [simpl; lia|].
      intros e He. apply not_true_is_false. intros Pe.
      apply list_elem_of_In, list_elem_of_lookup in He as [j Hj].
      pose proof (H (S j) e Hj Pe). lia.
    + apply (IH i). intros j e Hj Pe.
      pose proof (H (S j) e Hj Pe). lia.
Qed.

Lemma active_after_click this d j e :
  updateActiveNavLink this d !! j = Some e ->
  is_nav_item e = true -> is_active e = true -> j = this.
Proof.
  rewrite lookup_updateActiveNavLink.
  destruct (d !! j) as [x|]; [|discriminate].
  cbn [fmap option_fmap option_map]. intros [= <-].
  destruct (decide (this = j)) as [->|_]; [reflexivity|].
  rewrite cleared_nav. intros Hn. now rewrite (cleared_inactive _ Hn).
Qed.

Lemma click_at_most_one this d :
  (length (active_nav_items (updateActiveNavLink this d)) <= 1)%nat.
Proof.
  apply (filter_single _ _ this). intros j e He HP.
  apply andb_true_iff in HP as [Hn Ha]. eapply active_after_click; eauto.
Qed.

Lemma nav_hrefs_cons e d :
  nav_hrefs (e :: d) =
  match (if is_nav_item e then href e else None) with
  | Some h => h :: nav_hrefs d
  | None => nav_hrefs d
  end.
Proof. reflexivity. Qed.

Lemma marked_absent current d :
  ~ In (str "#" ++ current) (nav_hrefs d) ->
  active_nav_items (marked current <$> d) = [].
Proof.
  intros Hno. apply filter_nothing. intros e He.
  apply in_map_iff in He as (x & <- & Hx).
  rewrite marked_nav. destruct (is_nav_item x) eqn:Hn; [|reflexivity].
  rewrite (marked_active _ _ Hn). apply not_true_is_false. intros Hh.
  apply href_is_true in Hh. apply Hno.
  clear Hno. induction d as [|y d IH]; [contradiction|].
  rewrite nav_hrefs_cons. destruct Hx as [->|Hx].
  - rewrite Hn, Hh. now left.
  - destruct (if is_nav_item y then href y else None); [right|]; auto.
Qed.

Lemma scroll_at_most_one_for current d :
  NoDup (nav_hrefs d) ->
  (length (active_nav_items (marked current <$> d)) <= 1)%nat.
Proof.
  induction d as [|e d IH]; intros ND; [simpl; lia|].
  rewrite nav_hrefs_cons in ND.
  rewrite fmap_cons. unfold active_nav_items. cbn [List.filter].
  rewrite marked_nav.
  destruct (is_nav_item e) eqn:Hn; cbn [andb].
  - rewrite (marked_active _ _ Hn).
    destruct (href_is (str "#" ++ current) e) eqn:Hh.
    + apply href_is_true in Hh. rewrite Hh in ND.
      apply NoDup_cons in ND as [Hnotin _].
      rewrite list_elem_of_In in Hnotin.
      fold (active_nav_items (marked current <$> d)).
      rewrite (marked_absent _ _ Hnotin). simpl. lia.
    + apply IH. destruct (href e); [now apply NoDup_cons in ND|assumption].
  - apply IH. assumption.
Qed.

Lemma scroll_at_most_one d :
  NoDup (nav_hrefs d) ->
  (length (active_nav_items (updateActiveNavOnScroll d)) <= 1)%nat.
Proof. apply scroll_at_most_one_for. Qed.

Lemma on_click_unresolved this d :
  ~ resolves this d -> on_click this d = (fst (on_click this d), d).
Proof.
  intros Hno. unfold on_click.
  destruct (d !! this) as [link|] eqn:Hl; [|reflexivity].
  destruct (is_anchor_link link) eqn:Ha; [|reflexivity].
  destruct (href link) as [h|] eqn:Hh; [|reflexivity].
  destruct (getElementById (substring1 h) d) as [target|] eqn:Ht; [|reflexivity].
  exfalso. apply Hno. exists link, h, target. auto.
Qed.

Lemma scroll_active_count current d :
  length (active_nav_items (marked current <$> d)) =
  length (List.filter
            (fun e => is_nav_item e && href_is (str "#" ++ current) e) d).
Proof.
  unfold active_nav_items.
  induction d as [|e d IH]; [reflexivity|].
  rewrite fmap_cons. cbn [List.filter]. rewrite marked_nav.
  destruct (is_nav_item e) eqn:Hn; cbn [andb]; [|exact IH].
  rewrite (marked_active _ _ Hn).
  destruct (href_is _ e); cbn [length]; now rewrite IH.
Qed.

(** C3, as amended. After a run of the scroll handler the active
    navigation items (elements of class [list-group-item-action]) are as
    many as the navigation items whose [href] is ['#'] followed by
    [current]: at most one when the navigation items have pairwise distinct
    [href] attributes. After a run of the click handler that resolves its
    target at most one navigation item is active, whatever the [href]s; and
    a click that does not resolve its target changes nothing. *)
Theorem active_nav_items_at_most_one d :
  (NoDup (nav_hrefs d) ->
   (length (active_nav_items (updateActiveNavOnScroll d)) <= 1)%nat) /\
  (forall this, resolves this d ->
     (length (active_nav_items (snd (on_click this d))) <= 1)%nat) /\
  (forall this, ~ resolves this d -> snd (on_click this d) = d) /\
  length (active_nav_items (updateActiveNavOnScroll d)) =
  length (List.filter
            (fun e => is_nav_item e &&
                      href_is (str "#" ++ current_section d) e) d).
Proof.
  split; [apply scroll_at_most_one|]. split; [|split].
  - intros this (link & h & target & Hl & Ha & Hh & Ht).
    rewrite (on_click_resolved _ _ _ _ _ Hl Ha Hh Ht). apply click_at_most_one.
  - intros this Hno. now rewrite (on_click_unresolved _ _ Hno).
  - apply scroll_active_count.
Qed.

(** C3 as stated fails: with two sidebar entries pointing at the same
    section, the scroll handler marks both. *)
Lemma scroll_marks_both_twins :
  ~ (length (active_nav_items (updateActiveNavOnScroll twin_nav_page)) <= 1)%nat.
Proof. vm_compute. lia. Qed.

Lemma is_anchor_link_cleared e : is_anchor_link (cleared e) = is_anchor_link e.
Proof. unfold cleared. now destruct (is_nav_item e). Qed.

(** C4, as amended. A click on an in-page anchor whose fragment resolves
    marks the clicked link active, leaves every other navigation item
    (element of class [list-group-item-action]) inactive, and leaves every
    other element that is not a navigation item as it was. So if no other
    in-page anchor outside the navigation items was active before the
    click, exactly one in-page anchor bears the active state afterwards,
    the clicked one; and when the clicked link is itself a navigation
    item, the navigation items that are active afterwards are exactly the
    clicked one. *)
Theorem click_marks_clicked_link d this link h target :
  d !! this = Some link -> is_anchor_link link = true ->
  href link = Some h -> getElementById (substring1 h) d = Some target ->
  let d' := snd (on_click this d) in
  (exists link', d' !! this = Some link' /\ is_active link' = true /\
                 is_nav_item link' = is_nav_item link /\
                 href link' = href link) /\
  (forall j e, d' !! j = Some e -> is_nav_item e = true -> j <> this ->
               is_active e = false) /\
  (forall j e, d !! j = Some e -> is_nav_item e = false -> j <> this ->
               d' !! j = Some e) /\
  ((forall j e, d !! j = Some e -> j <> this ->
                is_anchor_link e = true -> is_nav_item e = false ->
                is_active e = false) ->
   sole_active_link this d') /\
  (is_nav_item link = true ->
   forall j e, d' !! j = Some e -> is_nav_item e = true ->
               (is_active e = true <-> j = this)).
Proof.
  intros Hl Ha Hh Ht d'. subst d'.
  rewrite (on_click_resolved _ _ _ _ _ Hl Ha Hh Ht). cbn [snd].
  assert (Hthis : updateActiveNavLink this d !! this =
                  Some (with_classList (DOM.add active) (cleared link))).
  { rewrite lookup_updateActiveNavLink, Hl. cbn.
    now destruct (decide (this = this)). }
  assert (Hother : forall j e, d !! j = Some e -> j <> this ->
            updateActiveNavLink this d !! j = Some (cleared e)).
  { intros j e He Hj. rewrite lookup_updateActiveNavLink, He. cbn.
    destruct (decide (this = j)); [congruence | reflexivity]. }
  assert (Hothers : forall j e, updateActiveNavLink this d !! j = Some e ->
            is_nav_item e = true -> j <> this -> is_active e = false).
  { intros j e He Hn Hj. apply not_true_is_false. intros Hact.
    apply Hj. eapply active_after_click; eauto. }
  split; [|split; [|split; [|split]]].
  - eexists. split; [exact Hthis|].
    rewrite is_active_add, is_nav_item_add, cleared_nav.
    repeat split. unfold with_classList. cbn [href]. apply cleared_href.
  - exact Hothers.
  - intros j e He Hn Hj. rewrite (Hother j e He Hj).
    unfold cleared. now rewrite Hn.
  - intros Hpre j e' He' Hanchor. split.
    + intros Hact. destruct (decide (j = this)) as [|Hj]; [assumption|].
      exfalso.
      destruct (d !! j) as [e|] eqn:He.
      * rewrite (Hother j e He Hj) in He'. injection He' as <-.
        rewrite is_anchor_link_cleared in Hanchor.
        destruct (is_nav_item e) eqn:Hn.
        -- rewrite (cleared_inactive _ Hn) in Hact. discriminate.
        -- unfold cleared in Hact. rewrite Hn in Hact.
           rewrite (Hpre j e He Hj Hanchor Hn) in Hact. discriminate.
      * rewrite lookup_updateActiveNavLink, He in He'. discriminate.
    + intros ->. rewrite Hthis in He'. injection He' as <-.
      apply is_active_add.
  - intros _ j e He Hn. split.
    + intros Hact. eapply active_after_click; eauto.
    + intros ->. rewrite Hthis in He. injection He as <-. apply is_active_add.
Qed.

(** C4 as stated fails: the first link of [body_links_page] is clicked
    after the second; both are in-page anchors with resolving fragments,
    neither is a navigation item, and both end up active. *)
Lemma click_leaves_earlier_link_active :
  let d := snd (on_click 1 body_links_page) in
  (exists link h target,
     d !! 0%nat = Some link /\ is_anchor_link link = true /\
     href link = Some h /\ getElementById (substring1 h) d = Some target) /\
  ~ sole_active_link 0 (snd (on_click 0 d)).
Proof.
  split.
  - exists (plain_link "#intro"), (str "#intro"), 2%nat.
    repeat split; reflexivity.
  - intros H.
    specialize (H 1%nat _ eq_refl eq_refl) as [H _].
    assert (E : 1%nat = 0%nat) by (apply H; reflexivity).
    discriminate.
Qed.

Lemma scan_unqualified d x :
  (forall s, In s d -> qualifies s = false) -> fold_left scan_step d x = x.
Proof.
  revert x. induction d as [|s d IH]; intros x H; [reflexivity|].
  simpl. unfold scan_step at 2. rewrite (H s) by now left.
  apply IH. intros s' Hs'. apply H. now right.
Qed.

Lemma qualifies_true s :
  qualifies s = true <-> is_section_with_id s = true /\ (top s <= 100 # 1)%Q.
Proof. unfold qualifies. now rewrite andb_true_iff, Qle_bool_iff. Qed.

(** C5, as amended. On every scroll event [current] is the id of the
    section that appears latest in document order among the sections with
    an id whose top is at most 100, and the empty string when there is no
    such section; afterwards a navigation item is active exactly when its
    [href] is ['#'] followed by [current], every other navigation item is
    inactive, and nothing else on the page has changed. So when some
    section qualifies, exactly the navigation items whose fragment is the
    current section's id are active; when none does, exactly those whose
    [href] is ['#'] alone. *)
Theorem scroll_marks_current_section d :
  (forall s x,
     current_section_is d s -> id s = Some x -> current_section d = x) /\
  ((forall s, In s d -> is_section_with_id s = true ->
              ~ (top s <= 100 # 1)%Q) ->
   current_section d = []) /\
  (forall j link,
     d !! j = Some link -> is_nav_item link = true ->
     exists link',
       updateActiveNavOnScroll d !! j = Some link' /\
       (is_active link' = true <->
        href link = Some (str "#" ++ current_section d)) /\
       is_nav_item link' = true /\ href link' = href link) /\
  (forall j e,
     d !! j = Some e -> is_nav_item e = false ->
     updateActiveNavOnScroll d !! j = Some e) /\
  length (updateActiveNavOnScroll d) = length d /\
  ((exists s, current_section_is d s) ->
   only_current_section_marked d (updateActiveNavOnScroll d)).
Proof.
  assert (Hunq : forall l : document,
            (forall s, In s l -> is_section_with_id s = true ->
                       ~ (top s <= 100 # 1)%Q) ->
            forall s, In s l -> qualifies s = false).
  { intros l H s Hin. apply not_true_is_false. intros Hq.
    apply qualifies_true in Hq as [Hs Htop]. exact (H s Hin Hs Htop). }
  assert (Hcur : forall s x,
            current_section_is d s -> id s = Some x -> current_section d = x).
  { intros s x (d1 & d2 & -> & Hs & Htop & Hlater) Hid.
    unfold current_section. rewrite fold_left_app. cbn [fold_left].
    assert (Hq : qualifies s = true) by now apply qualifies_true.
    unfold scan_step at 2. rewrite Hq, Hid.
    apply scan_unqualified. now apply Hunq. }
  split; [exact Hcur|]. split; [|split; [|split; [|split]]].
  - intros Hnone. apply scan_unqualified. now apply Hunq.
  - intros j link Hj Hn. exists (marked (current_section d) link).
    rewrite lookup_updateActiveNavOnScroll, Hj.
    split; [reflexivity|]. split; [|split].
    + rewrite (marked_active _ _ Hn). apply href_is_true.
    + now rewrite marked_nav.
    + apply marked_href.
  - intros j e Hj Hn.
    rewrite lookup_updateActiveNavOnScroll, Hj. cbn.
    unfold marked. now rewrite Hn.
  - unfold updateActiveNavOnScroll. apply length_fmap.
  - intros [s0 Hs0] j link link' Hj Hj' Hn.
    rewrite lookup_updateActiveNavOnScroll, Hj in Hj'.
    cbn [fmap option_fmap option_map] in Hj'. injection Hj' as <-.
    rewrite (marked_active _ _ Hn), href_is_true.
    assert (Hid0 : exists x0, id s0 = Some x0).
    { destruct Hs0 as (_ & _ & _ & Hs & _).
      unfold is_section_with_id in Hs. apply andb_true_iff in Hs as [_ Hs].
      destruct (id s0) as [x0|]; [now exists x0 | discriminate]. }
    destruct Hid0 as [x0 Hid0]. split.
    + intros Hh. exists s0, x0. repeat split; auto.
      now rewrite <- (Hcur s0 x0 Hs0 Hid0).
    + intros (s & x & Hs & Hid & Hh). now rewrite (Hcur s x Hs Hid).
Qed.

(** C5 as stated fails: above the first section no section is current,
    yet the scroll handler marks the sidebar entry whose [href] is ['#']
    instead of clearing it. *)
Lemma scroll_marks_hash_link_without_section :
  ~ only_current_section_marked above_sections_page
      (updateActiveNavOnScroll above_sections_page).
Proof.
  intros H.
  destruct (H 0%nat (nav_link "#") _ eq_refl eq_refl eq_refl) as [H1 _].
  destruct (H1 eq_refl) as (s & x & (d1 & d2 & E & Hs & Htop & _) & _).
  assert (Hin : In s above_sections_page) by (rewrite E; apply in_elt).
  destruct Hin as [<- | [<- | [<- | []]]].
  - vm_compute in Hs. discriminate.
  - vm_compute in Hs. discriminate.
  - unfold Qle in Htop. simpl in Htop. lia.
Qed.

(** *** The invariant along any run of the page *)

Lemma nav_hrefs_fmap (f : element -> element) d :
  (forall e, is_nav_item (f e) = is_nav_item e /\ href (f e) = href e) ->
  nav_hrefs (f <$> d) = nav_hrefs d.
Proof.
  intros Hf. induction d as [|e d IH]; [reflexivity|].
  rewrite fmap_cons, !nav_hrefs_cons, IH.
  destruct (Hf e) as [-> ->]. reflexivity.
Qed.

Lemma nav_hrefs_alter (f : element -> element) d : forall i,
  (forall e, is_nav_item (f e) = is_nav_item e /\ href (f e) = href e) ->
  nav_hrefs (alter f i d) = nav_hrefs d.
Proof.
  induction d as [|e d IH]; intros i Hf; [reflexivity|].
  destruct i as [|i]; cbn [alter list_alter]; rewrite !nav_hrefs_cons.
  - destruct (Hf e) as [-> ->]. reflexivity.
  - fold (alter f i d). now rewrite IH.
Qed.

Lemma nav_hrefs_click this d : nav_hrefs (updateActiveNavLink this d) = nav_hrefs d.
Proof.
  unfold updateActiveNavLink. rewrite nav_hrefs_alter.
  - apply nav_hrefs_fmap. intros e. split; [apply cleared_nav | apply cleared_href].
  - intros e. split; [apply is_nav_item_add | reflexivity].
Qed.

Lemma nav_hrefs_scroll d : nav_hrefs (updateActiveNavOnScroll d) = nav_hrefs d.
Proof.
  apply nav_hrefs_fmap. intros e. split; [apply marked_nav | apply marked_href].
Qed.

Lemma relayout_cons tops e d :
  relayout tops (e :: d) =
  {| tag := tag e; id := id e; href := href e; classList := classList e;
     top := tops 0%nat |} :: relayout (fun i => tops (S i)) d.
Proof. reflexivity. Qed.

Lemma relayout_keeps d : forall tops,
  nav_hrefs (relayout tops d) = nav_hrefs d /\
  length (active_nav_items (relayout tops d)) = length (active_nav_items d).
Proof.
  induction d as [|e d IH]; intros tops; [split; reflexivity|].
  rewrite relayout_cons. destruct (IH (fun i => tops (S i))) as [IH1 IH2].
  split.
  - rewrite !nav_hrefs_cons, IH1. reflexivity.
  - unfold active_nav_items in *. cbn [List.filter].
    match goal with
    | |- context [is_nav_item ?x && is_active ?x] =>
        change (is_nav_item x && is_active x)
          with (is_nav_item e && is_active e)
    end.
    destruct (is_nav_item e && is_active e); cbn [length]; now rewrite IH2.
Qed.

(** From a page whose navigation items have distinct [href]s and of which
    at most one is active, no sequence of clicks, scrolls and layout
    changes reaches a page with two active navigation items. *)
Lemma active_nav_invariant d d' :
  steps d d' ->
  NoDup (nav_hrefs d) -> (length (active_nav_items d) <= 1)%nat ->
  NoDup (nav_hrefs d') /\ (length (active_nav_items d') <= 1)%nat.
Proof.
  induction 1 as [d|d1 d2 d3 _ IH Hstep]; intros ND Hone; [now split|].
  destruct (IH ND Hone) as [ND2 Hone2]. clear IH ND Hone.
  destruct Hstep as [this d|d|tops d].
  - destruct (on_click_cases this d) as [-> | ->]; [|now split].
    rewrite nav_hrefs_click. split; [assumption | apply click_at_most_one].
  - rewrite nav_hrefs_scroll. split; [assumption | now apply scroll_at_most_one].
  - destruct (relayout_keeps d tops) as [-> ->]. now split.
Qed.

End NavigatorFacts.

(** ** The documentation search *)

Section SearchFacts.
Import Search.

Variable toLowerCase : jstring -> jstring.
Hypothesis toLowerCase_empty : toLowerCase [] = [].

Local Abbreviation on_input := (Search.on_input toLowerCase).

Lemma block_not_none : str "block" <> str "none".
Proof. intros E. vm_compute in E. discriminate. Qed.

Lemma lookup_on_input value d j :
  on_input value d !! j =
  (fun section =>
     if is_doc_section section then
       if includes (toLowerCase (textContent section)) (toLowerCase value)
       then set_display (str "block") section
       else set_display (str "none") section
     else section) <$> d !! j.
Proof.
  unfold Search.on_input. rewrite list_lookup_fmap.
  destruct (d !! j) as [section|]; [|reflexivity].
  cbn. destruct (is_doc_section section); [|reflexivity].
  destruct (includes _ _) eqn:E; [reflexivity|].
  cbn [orb]. destruct (strictEq (toLowerCase value) []) eqn:E0; [|reflexivity].
  apply strictEq_true in E0. rewrite E0, includes_nil in E. discriminate.
Qed.

(** C8. After an input event each documentation section is shown exactly
    when the term is empty or its lower-cased text contains the lower-cased
    term, and is hidden otherwise; its text is untouched, and so is every
    element that is not a documentation section. An empty term shows all
    sections. *)
Theorem search_shows_matching_sections value d :
  let d' := on_input value d in
  (forall j section,
     d !! j = Some section -> is_doc_section section = true ->
     exists section',
       d' !! j = Some section' /\
       (shown section' <->
        value = [] \/
        exists pre post,
          toLowerCase (textContent section) = pre ++ toLowerCase value ++ post) /\
       (~ shown section' -> display section' = str "none") /\
       textContent section' = textContent section) /\
  (value = [] ->
   forall j section', d' !! j = Some section' ->
     is_doc_section section' = true -> shown section') /\
  (forall j e, d !! j = Some e -> is_doc_section e = false ->
     d' !! j = Some e).
Proof.
  intros d'. subst d'.
  assert (Hsec : forall j section,
     d !! j = Some section -> is_doc_section section = true ->
     on_input value d !! j =
     Some (set_display
             (if includes (toLowerCase (textContent section)) (toLowerCase value)
              then str "block" else str "none") section)).
  { intros j section Hj Hs. rewrite lookup_on_input, Hj. cbn. rewrite Hs.
    now destruct (includes _ _). }
  split; [|split].
  - intros j section Hj Hs. eexists. split; [exact (Hsec j section Hj Hs)|].
    unfold shown. cbn [set_display display textContent].
    destruct (includes _ _) eqn:E.
    + split; [|split; [|reflexivity]].
      * split; [intros _|reflexivity]. right. now apply includes_substring.
      * intros H. now contradiction H.
    + split; [|split; [|reflexivity]].
      * split; [intros H; symmetry in H; now apply block_not_none in H|].
        intros [-> | H].
        -- rewrite toLowerCase_empty, includes_nil in E. discriminate.
        -- apply includes_substring in H. congruence.
      * reflexivity.
  - intros -> j section' Hj Hs.
    rewrite lookup_on_input in Hj.
    destruct (d !! j) as [section|]; [|discriminate].
    cbn in Hj. rewrite toLowerCase_empty, includes_nil in Hj.
    destruct (is_doc_section section) eqn:Es.
    + injection Hj as <-. reflexivity.
    + injection Hj as <-. congruence.
  - intros j e Hj Hs. rewrite lookup_on_input, Hj. cbn. now rewrite Hs.
Qed.

End SearchFacts.

(** ** The code-block copier *)

Section CopierFacts.
Import Copier.

Lemma icons_differ : check_icon <> copy_icon.
Proof. intros E. vm_compute in E. discriminate. Qed.

Lemma success_not_secondary : success <> secondary.
Proof. intros E. vm_compute in E. discriminate. Qed.

Lemma advance_forward t s :
  clock s <= t ->
  advance t s =
  {| clock := t;
     copyButton :=
       fold_left (fun b tm => revert tm b)
         (List.filter (fun tm => due tm <=? t) (pending s)) (copyButton s);
     pending := List.filter (fun tm => negb (due tm <=? t)) (pending s) |}.
Proof.
  intros H. unfold advance.
  replace (t <? clock s) with false by (symmetry; apply N.ltb_ge; lia).
  reflexivity.
Qed.


(** C9 fails on the code. Two copies on the same control, 1000 ms apart:
    the second callback stores the confirmation icon as [originalHTML].
    1000 ms after the second copy the first timer has already put the copy
    icon back; 2000 ms after it the second timer puts the confirmation
    icon back in place, and with no timer left it stays. *)
Theorem second_copy_restores_confirmation_icon :
  let s := run [CopySucceeded 0; CopySucceeded 1000] initial in
  innerHTML (copyButton s) = check_icon /\
  innerHTML (copyButton (handle s (Elapsed 2000))) = copy_icon /\
  innerHTML (copyButton (handle s (Elapsed 3000))) = check_icon /\
  pending (handle s (Elapsed 3000)) = [] /\
  innerHTML (copyButton initial) = copy_icon /\
  check_icon <> copy_icon.
Proof.
  repeat split; try reflexivity. apply icons_differ.
Qed.

End CopierFacts.

(** ** Concrete runs *)

Section Runs.
Import JSON ApiTester Navigator.

Lemma submit_missing_field_alerts_without_request_run :
  ([] = @nil N \/ str "a@b.co" = []) /\
  fst (submit print_integer unreachable [] (str "a@b.co") blank_panel) =
    [ApiTester.PreventDefault; Alert missing_message] /\
  In (Alert missing_message)
    (fst (submit print_integer unreachable [] (str "a@b.co") blank_panel)) /\
  forall req,
    ~ In (Fetch req)
        (fst (submit print_integer unreachable [] (str "a@b.co") blank_panel)).
Proof.
  split; [left; reflexivity|].
  apply (submit_missing_field_alerts_without_request
           print_integer unreachable [] (str "a@b.co") blank_panel).
  left. reflexivity.
Defined.

Lemma submit_missing_field_leaves_panel_run :
  (str "key-123" = [] \/ [] = @nil N) /\
  snd (submit print_integer unreachable (str "key-123") [] blank_panel) =
    blank_panel.
Proof.
  split; [right; reflexivity|].
  apply (submit_missing_field_leaves_panel
           print_integer unreachable (str "key-123") [] blank_panel).
  right. reflexivity.
Defined.

Lemma submit_parsed_body_rendered_run :
  str "key-123" <> [] /\ str "a@b.co" <> [] /\
  answering valid_response
    (validate_request print_integer (str "key-123") (str "a@b.co")) =
    Fulfilled valid_response /\
  json valid_response =
    Fulfilled (Object [(str "valid", Bool true); (str "score", Number 95%Z)]) /\
  let p' := snd (submit print_integer (answering valid_response)
                   (str "key-123") (str "a@b.co") blank_panel) in
  output_textContent p' =
    stringify2 print_integer
      (Object [(str "valid", Bool true); (str "score", Number 95%Z)]) /\
  (output_className p' = success_class <-> 200 <= status valid_response <= 299) /\
  (output_className p' = danger_class <->
   ~ (200 <= status valid_response <= 299)).
Proof.
  assert (Hk : str "key-123" <> []) by discriminate.
  assert (He : str "a@b.co" <> []) by discriminate.
  split; [exact Hk|]. split; [exact He|].
  split; [reflexivity|]. split; [reflexivity|].
  exact (submit_parsed_body_rendered print_integer (answering valid_response)
           (str "key-123") (str "a@b.co") blank_panel valid_response _
           Hk He eq_refl eq_refl).
Defined.

Lemma submit_failure_rendered_run :
  str "key-123" <> [] /\ str "a@b.co" <> [] /\
  (unreachable (validate_request print_integer (str "key-123") (str "a@b.co")) =
     Rejected (str "Failed to fetch") \/
   exists resp,
     unreachable (validate_request print_integer (str "key-123") (str "a@b.co")) =
       Fulfilled resp /\
     json resp = Rejected (str "Failed to fetch")) /\
  let p' := snd (submit print_integer unreachable
                   (str "key-123") (str "a@b.co") blank_panel) in
  let shown := str "Request failed: " ++ str "Failed to fetch" in
  output_textContent p' =
    stringify2 print_integer (Object [(str "error", String shown)]) /\
  parse read_integer (output_textContent p') =
    Some (Object [(str "error", String shown)]) /\
  includes shown (str "Failed to fetch") = true /\
  output_className p' = danger_class.
Proof.
  assert (Hk : str "key-123" <> []) by discriminate.
  assert (He : str "a@b.co" <> []) by discriminate.
  split; [exact Hk|]. split; [exact He|].
  split; [left; reflexivity|].
  exact (submit_failure_rendered print_integer read_integer unreachable
           (str "key-123") (str "a@b.co") blank_panel (str "Failed to fetch")
           Hk He (or_introl eq_refl)).
Defined.

Lemma active_nav_items_at_most_one_run :
  NoDup (nav_hrefs sidebar_page) /\
  (length (active_nav_items (updateActiveNavOnScroll sidebar_page)) <= 1)%nat /\
  resolves 0 twin_nav_page /\
  (length (active_nav_items (snd (on_click 0 twin_nav_page))) <= 1)%nat /\
  ~ resolves 2 sidebar_page /\
  snd (on_click 2 sidebar_page) = sidebar_page.
Proof.
  assert (ND : NoDup (nav_hrefs sidebar_page))
    by (apply (bool_decide_unpack (NoDup (nav_hrefs sidebar_page)));
        vm_compute; exact I).
  assert (R : resolves 0 twin_nav_page).
  { exists (nav_link "#intro"), (str "#intro"), 2%nat.
    repeat split; reflexivity. }
  assert (U : ~ resolves 2 sidebar_page).
  { intros (link & h & target & Hl & Ha & _).
    cbn in Hl. injection Hl as <-. vm_compute in Ha. discriminate. }
  split; [exact ND|].
  split; [exact (proj1 (active_nav_items_at_most_one sidebar_page) ND)|].
  split; [exact R|].
  split; [exact (proj1 (proj2 (active_nav_items_at_most_one twin_nav_page)) 0%nat R)|].
  split; [exact U|].
  exact (proj1 (proj2 (proj2 (active_nav_items_at_most_one sidebar_page)))
           2%nat U).
Defined.

Lemma click_marks_clicked_link_run :
  body_links_page !! 1%nat = Some (plain_link "#usage") /\
  is_anchor_link (plain_link "#usage") = true /\
  href (plain_link "#usage") = Some (str "#usage") /\
  getElementById (substring1 (str "#usage")) body_links_page = Some 3%nat /\
  (forall j e, body_links_page !! j = Some e -> j <> 1%nat ->
               is_anchor_link e = true -> is_nav_item e = false ->
               is_active e = false) /\
  sole_active_link 1 (snd (on_click 1 body_links_page)) /\
  (forall j e, body_links_page !! j = Some e -> is_nav_item e = false ->
               j <> 1%nat -> snd (on_click 1 body_links_page) !! j = Some e) /\
  (forall j e, snd (on_click 0 sidebar_page) !! j = Some e ->
               is_nav_item e = true -> (is_active e = true <-> j = 0%nat)).
Proof.
  assert (Hpre : forall j e, body_links_page !! j = Some e -> j <> 1%nat ->
                   is_anchor_link e = true -> is_nav_item e = false ->
                   is_active e = false).
  { intros j e Hj _ _ _.
    destruct j as [|[|[|[|j]]]]; cbn in Hj; try discriminate;
      injection Hj as <-; reflexivity. }
  pose proof (click_marks_clicked_link body_links_page 1 (plain_link "#usage")
                (str "#usage") 3 eq_refl eq_refl eq_refl eq_refl) as T.
  cbv zeta in T.
  split; [reflexivity|]. split; [reflexivity|].
  split; [reflexivity|]. split; [reflexivity|].
  split; [exact Hpre|].
  pose proof (click_marks_clicked_link sidebar_page 0 (nav_link "#intro")
                (str "#intro") 2 eq_refl eq_refl eq_refl eq_refl) as S.
  cbv zeta in S.
  split; [exact (proj1 (proj2 (proj2 (proj2 T))) Hpre)|].
  split; [exact (proj1 (proj2 (proj2 T)))|].
  exact (proj2 (proj2 (proj2 (proj2 S))) eq_refl).
Defined.

Lemma scroll_marks_current_section_run :
  current_section_is sidebar_page (section_at "usage" (80 # 1)) /\
  current_section sidebar_page = str "usage" /\
  (forall s, In s above_sections_page -> is_section_with_id s = true ->
             ~ (top s <= 100 # 1)%Q) /\
  current_section above_sections_page = [].
Proof.
  assert (C : current_section_is sidebar_page (section_at "usage" (80 # 1))).
  { exists [nav_link "#intro"; nav_link "#usage";
            section_at "intro" (-(300 # 1))],
           [section_at "errors" (700 # 1)].
    split; [reflexivity|]. split; [reflexivity|].
    split; [unfold Qle; simpl; lia|].
    intros s' [<- | []] _ H. unfold Qle in H. simpl in H. lia. }
  assert (N : forall s, In s above_sections_page ->
                is_section_with_id s = true -> ~ (top s <= 100 # 1)%Q).
  { intros s [<- | [<- | [<- | []]]] Hs H.
    - vm_compute in Hs. discriminate.
    - vm_compute in Hs. discriminate.
    - unfold Qle in H. simpl in H. lia. }
  split; [exact C|].
  split; [exact (proj1 (scroll_marks_current_section sidebar_page)
                   _ (str "usage") C eq_refl)|].
  split; [exact N|].
  exact (proj1 (proj2 (scroll_marks_current_section above_sections_page)) N).
Defined.

Lemma search_shows_matching_sections_run :
  ascii_lower [] = [] /\
  let d' := Search.on_input ascii_lower (str "API") docs_sections in
  (forall j section,
     docs_sections !! j = Some section ->
     Search.is_doc_section section = true ->
     exists section',
       d' !! j = Some section' /\
       (Search.shown section' <->
        str "API" = [] \/
        exists pre post,
          ascii_lower (Search.textContent section) =
          pre ++ ascii_lower (str "API") ++ post) /\
       (~ Search.shown section' -> Search.display section' = str "none") /\
       Search.textContent section' = Search.textContent section) /\
  (str "API" = [] ->
   forall j section', d' !! j = Some section' ->
     Search.is_doc_section section' = true -> Search.shown section') /\
  (forall j e, docs_sections !! j = Some e ->
     Search.is_doc_section e = false -> d' !! j = Some e).
Proof.
  split; [reflexivity|].
  exact (search_shows_matching_sections ascii_lower eq_refl
           (str "API") docs_sections).
Defined.


Lemma active_nav_invariant_run :
  steps sidebar_page
    (snd (on_click 0 (updateActiveNavOnScroll sidebar_page))) /\
  NoDup (nav_hrefs sidebar_page) /\
  (length (active_nav_items sidebar_page) <= 1)%nat /\
  NoDup (nav_hrefs (snd (on_click 0 (updateActiveNavOnScroll sidebar_page)))) /\
  (length (active_nav_items
             (snd (on_click 0 (updateActiveNavOnScroll sidebar_page)))) <= 1)%nat.
Proof.
  assert (S : steps sidebar_page
                (snd (on_click 0 (updateActiveNavOnScroll sidebar_page)))).
  { eapply steps_next; [eapply steps_next; [apply steps_refl|]|].
    - apply step_scroll.
    - apply step_click. }
  assert (ND : NoDup (nav_hrefs sidebar_page))
    by (apply (bool_decide_unpack (NoDup (nav_hrefs sidebar_page)));
        vm_compute; exact I).
  assert (L : (length (active_nav_items sidebar_page) <= 1)%nat)
    by (simpl; lia).
  split; [exact S|]. split; [exact ND|]. split; [exact L|].
  exact (active_nav_invariant _ _ S ND L).
Defined.

End Runs.

(** * Further properties *)

(** ** [isValidEmail] in terms of positions *)

Section EmailPositions.
Import RegExp Email.

Lemma plain_split c :
  plain c = negb (isWhiteSpace c) && negb (c =? at_sign).
Proof. unfold plain. apply negb_orb. Qed.

Lemma plain_units l :
  forallb plain l = true <->
  forallb (fun c => negb (isWhiteSpace c)) l = true /\
  count_occ N.eq_dec l at_sign = 0%nat.
Proof.
  induction l as [|c l IH]; [simpl; tauto|].
  cbn [forallb count_occ]. rewrite plain_split, !andb_true_iff, IH.
  destruct (N.eq_dec c at_sign) as [->|Hne].
  - rewrite N.eqb_refl. cbn [negb]. split; [intros [[_ ?] _]|intros [_ ?]]; discriminate.
  - apply N.eqb_neq in Hne. rewrite Hne. cbn [negb]. tauto.
Qed.

Lemma count_at_sign_app l1 l2 :
  count_occ N.eq_dec (l1 ++ l2) at_sign =
  (count_occ N.eq_dec l1 at_sign + count_occ N.eq_dec l2 at_sign)%nat.
Proof. apply count_occ_app. Qed.

(** [isValidEmail] accepts a string exactly when it has no white space,
    exactly one ['@'], at a position other than the first, and a ['.'] at
    least two positions after the ['@'] and before the last position. *)
Theorem isValidEmail_by_positions s :
  isValidEmail s = true <->
  forallb (fun c => negb (isWhiteSpace c)) s = true /\
  count_occ N.eq_dec s at_sign = 1%nat /\
  exists i j,
    s !! i = Some at_sign /\ s !! j = Some dot /\
    (0 < i)%nat /\ (i + 1 < j)%nat /\ (j + 1 < length s)%nat.
Proof.
  rewrite isValidEmail_shape. split.
  - intros (loc & d1 & d2 & -> & Hl & H1 & H2 & Pl & P1 & P2).
    apply plain_units in Pl as [Wl Cl].
    apply plain_units in P1 as [W1 C1].
    apply plain_units in P2 as [W2 C2].
    split; [|split].
    + rewrite forallb_app. cbn [forallb]. rewrite forallb_app. cbn [forallb].
      now rewrite Wl, W1, W2.
    + rewrite count_at_sign_app. cbn [count_occ].
      destruct (N.eq_dec at_sign at_sign) as [_|]; [|contradiction].
      rewrite count_at_sign_app. cbn [count_occ].
      destruct (N.eq_dec dot at_sign) as [E|_]; [discriminate E|]. lia.
    + exists (length loc), (length loc + 1 + length d1)%nat.
      assert (0 < length loc)%nat by (destruct loc; [contradiction | simpl; lia]).
      assert (0 < length d1)%nat by (destruct d1; [contradiction | simpl; lia]).
      assert (0 < length d2)%nat by (destruct d2; [contradiction | simpl; lia]).
      split; [apply list_lookup_middle; reflexivity|].
      split.
      * replace (loc ++ at_sign :: d1 ++ dot :: d2)
          with ((loc ++ at_sign :: d1) ++ dot :: d2)
          by (rewrite <- app_assoc; reflexivity).
        apply list_lookup_middle. rewrite length_app. simpl. lia.
      * rewrite !length_app. cbn [length]. rewrite length_app. cbn [length]. lia.
  - intros (W & C & i & j & Hi & Hj & Hi0 & Hij & Hjn).
    pose proof (take_drop_middle s i at_sign Hi) as Es.
    set (loc := take i s) in *. set (r := drop (S i) s) in *.
    assert (Hr : r !! (j - S i)%nat = Some dot).
    { unfold r. rewrite lookup_drop. rewrite <- Hj. f_equal. lia. }
    pose proof (take_drop_middle r (j - S i) dot Hr) as Er.
    set (d1 := take (j - S i) r) in *. set (d2 := drop (S (j - S i)) r) in *.
    assert (Ls : length s = (length loc + 1 + length r)%nat).
    { rewrite <- Es at 1. rewrite length_app. simpl. lia. }
    assert (Lloc : length loc = i).
    { unfold loc. rewrite length_take. lia. }
    assert (Lr : length r = (length d1 + 1 + length d2)%nat).
    { rewrite <- Er at 1. rewrite length_app. simpl. lia. }
    assert (Ld1 : length d1 = (j - S i)%nat).
    { unfold d1. rewrite length_take. lia. }
    exists loc, d1, d2.
    split; [now rewrite Er, Es|].
    split; [intros E; rewrite E in Lloc; simpl in Lloc; lia|].
    split; [intros E; rewrite E in Ld1; simpl in Ld1; lia|].
    split; [intros E; rewrite E in Lr; simpl in Lr; lia|].
    rewrite <- Es, <- Er in W, C.
    rewrite forallb_app in W. cbn [forallb] in W. rewrite forallb_app in W.
    cbn [forallb] in W.
    apply andb_true_iff in W as [Wl W]. apply andb_true_iff in W as [_ W].
    apply andb_true_iff in W as [W1 W]. apply andb_true_iff in W as [_ W2].
    rewrite count_at_sign_app in C. cbn [count_occ] in C.
    destruct (N.eq_dec at_sign at_sign) as [_|]; [|contradiction].
    rewrite count_at_sign_app in C. cbn [count_occ] in C.
    destruct (N.eq_dec dot at_sign) as [E|_]; [discriminate E|].
    repeat split; apply plain_units; split; try assumption; lia.
Qed.

End EmailPositions.

(** ** The documentation search: successive terms *)

Section SearchRuns.
Import Search.

Variable toLowerCase : jstring -> jstring.

Local Abbreviation on_input := (Search.on_input toLowerCase).

Lemma includes_trans a b c :
  includes a b = true -> includes b c = true -> includes a c = true.
Proof.
  rewrite !includes_substring.
  intros (p1 & q1 & ->) (p2 & q2 & ->).
  exists (p1 ++ p2), (q2 ++ q1). now rewrite <- !app_assoc.
Qed.

(** What the listener leaves on the page depends on the last term only:
    filtering by one term and then by another gives the page that the
    second term alone gives, so a section hidden by an earlier term comes
    back as soon as the field's value matches it again. *)
Theorem on_input_last_term_decides v1 v2 d :
  on_input v2 (on_input v1 d) = on_input v2 d.
Proof.
  unfold Search.on_input. rewrite <- list_fmap_compose.
  apply list_fmap_ext. intros _ section _. unfold compose.
  destruct (is_doc_section section) eqn:Es; [|now rewrite Es].
  destruct (includes (toLowerCase (textContent section)) (toLowerCase v1)
            || strictEq (toLowerCase v1) []);
    cbn [set_display is_doc_section textContent]; rewrite Es;
    destruct (includes (toLowerCase (textContent section)) (toLowerCase v2)
              || strictEq (toLowerCase v2) []); reflexivity.
Qed.

(** Narrowing: when the lower-cased first term occurs in the lower-cased
    second one, every documentation section shown for the second term is
    shown for the first. *)
Theorem on_input_longer_term_shows_less v1 v2 d j e1 e2 :
  includes (toLowerCase v2) (toLowerCase v1) = true ->
  on_input v1 d !! j = Some e1 ->
  on_input v2 d !! j = Some e2 ->
  is_doc_section e2 = true ->
  shown e2 -> shown e1.
Proof.
  intros Hsub H1 H2 Hs Hshown.
  unfold Search.on_input in H1, H2. rewrite list_lookup_fmap in H1, H2.
  destruct (d !! j) as [section|]; [|discriminate].
  cbn [fmap option_fmap option_map] in H1, H2.
  injection H1 as <-. injection H2 as <-.
  destruct (is_doc_section section) eqn:Es; [|congruence].
  unfold shown in *.
  destruct (includes (toLowerCase (textContent section)) (toLowerCase v2)) eqn:I2.
  - rewrite (includes_trans _ _ _ I2 Hsub). reflexivity.
  - cbn [orb] in Hshown.
    destruct (strictEq (toLowerCase v2) []) eqn:E2.
    + apply strictEq_true in E2. rewrite E2 in Hsub.
      destruct (toLowerCase v1) as [|c t] eqn:E1.
      * rewrite includes_nil. reflexivity.
      * simpl in Hsub. discriminate.
    + cbn [orb set_display display] in Hshown. symmetry in Hshown.
      now apply block_not_none in Hshown.
Qed.

End SearchRuns.

(** ** The section navigator: edges, frame and composition *)

Section NavigatorMore.
Import Navigator.

Lemma getElementById_absent x d :
  x = [] \/ (forall e, In e d -> id e <> Some x) ->
  getElementById x d = None.
Proof.
  intros [-> | H]; [reflexivity|].
  unfold getElementById. destruct x as [|c x]; [reflexivity|].
  replace (list_find (fun e => id e = Some (c :: x)) d) with
    (@None (nat * element)); [reflexivity|].
  symmetry. apply list_find_None. apply Forall_forall.
  intros e He. apply H. now apply list_elem_of_In.
Qed.

(** A click on an in-page anchor whose fragment is empty (the [href] is
    just ['#']) or names no element of the page prevents the default action
    and does nothing else: no scrolling, and the page is left as it is. *)
Theorem click_unresolved_changes_nothing d this link h :
  d !! this = Some link -> is_anchor_link link = true -> href link = Some h ->
  substring1 h = [] \/ (forall e, In e d -> id e <> Some (substring1 h)) ->
  on_click this d = ([PreventDefault], d).
Proof.
  intros Hl Ha Hh Hno. unfold on_click.
  now rewrite Hl, Ha, Hh, (getElementById_absent _ _ Hno).
Qed.

Lemma remove_remove t l : DOM.remove t (DOM.remove t l) = DOM.remove t l.
Proof.
  unfold DOM.remove. induction l as [|c l IH]; [reflexivity|].
  cbn [List.filter]. destruct (negb (strictEq c t)) eqn:E; [|exact IH].
  cbn [List.filter]. now rewrite E, IH.
Qed.

Lemma remove_add t l : DOM.remove t (DOM.add t l) = DOM.remove t l.
Proof.
  unfold DOM.add. destruct (DOM.contains t l); [reflexivity|].
  unfold DOM.remove. rewrite List.filter_app. cbn [List.filter].
  replace (strictEq t t) with true by (symmetry; now apply strictEq_true).
  cbn [negb]. apply app_nil_r.
Qed.

(** The scroll handler's loop body does not see whether a navigation item
    was active before. *)
Lemma marked_forgets current e f :
  (f = DOM.remove active \/ f = DOM.add active \/
   f = (fun l => DOM.add active (DOM.remove active l))) ->
  is_nav_item e = true ->
  marked current (with_classList f e) = marked current e.
Proof.
  intros Hf Hn. unfold marked.
  assert (Hn' : is_nav_item (with_classList f e) = true).
  { destruct Hf as [-> | [-> | ->]].
    - now rewrite is_nav_item_remove.
    - now rewrite is_nav_item_add.
    - change (with_classList (fun l => DOM.add active (DOM.remove active l)) e)
        with (with_classList (DOM.add active) (with_classList (DOM.remove active) e)).
      now rewrite is_nav_item_add, is_nav_item_remove. }
  rewrite Hn, Hn'. cbv zeta.
  assert (E : with_classList (DOM.remove active) (with_classList f e) =
              with_classList (DOM.remove active) e).
  { unfold with_classList. cbn [tag id href classList top]. f_equal.
    destruct Hf as [-> | [-> | ->]].
    - apply remove_remove.
    - apply remove_add.
    - now rewrite remove_add, remove_remove. }
  now rewrite E.
Qed.

Lemma marked_cleared current e : marked current (cleared e) = marked current e.
Proof.
  unfold cleared. destruct (is_nav_item e) eqn:Hn; [|reflexivity].
  apply marked_forgets; auto.
Qed.

Lemma marked_marked current e :
  marked current (marked current e) = marked current e.
Proof.
  destruct (is_nav_item e) eqn:Hn.
  - unfold marked at 2. rewrite Hn. cbv zeta.
    destruct (href_is _ _).
    + change (with_classList (DOM.add active) (with_classList (DOM.remove active) e))
        with (with_classList (fun l => DOM.add active (DOM.remove active l)) e).
      apply marked_forgets; auto.
    + apply marked_forgets; auto.
  - unfold marked. now rewrite Hn, Hn.
Qed.

(** The scan reads the tag, the id and the top of an element only. *)
Lemma scan_step_same x e e' :
  tag e' = tag e -> id e' = id e -> top e' = top e ->
  scan_step x e' = scan_step x e.
Proof.
  intros Ht Hi Hp. unfold scan_step, qualifies, is_section_with_id.
  now rewrite Ht, Hi, Hp.
Qed.

Lemma current_section_same d d' :
  Forall2 (fun e' e => tag e' = tag e /\ id e' = id e /\ top e' = top e) d' d ->
  current_section d' = current_section d.
Proof.
  intros H. unfold current_section. generalize (@nil N).
  induction H as [|e' e d' d (Ht & Hi & Hp) _ IH]; intros x; [reflexivity|].
  cbn [fold_left]. rewrite (scan_step_same x e e' Ht Hi Hp). apply IH.
Qed.

Lemma cleared_same e :
  tag (cleared e) = tag e /\ id (cleared e) = id e /\ top (cleared e) = top e.
Proof. unfold cleared. now destruct (is_nav_item e). Qed.

Lemma marked_same current e :
  tag (marked current e) = tag e /\ id (marked current e) = id e /\
  top (marked current e) = top e.
Proof.
  unfold marked. destruct (is_nav_item e); [|auto].
  cbv zeta. now destruct (href_is _ _).
Qed.

Lemma current_section_click this d :
  current_section (updateActiveNavLink this d) = current_section d.
Proof.
  apply current_section_same. apply Forall2_same_length_lookup_2.
  - unfold updateActiveNavLink. now rewrite length_alter, length_fmap.
  - intros j e' e He' He. rewrite lookup_updateActiveNavLink, He in He'.
    cbn [fmap option_fmap option_map] in He'. injection He' as <-.
    destruct (cleared_same e) as (Ht & Hi & Hp).
    destruct (decide (this = j)); [|auto].
    unfold with_classList. cbn [tag id top]. auto.
Qed.

Lemma current_section_scroll d :
  current_section (updateActiveNavOnScroll d) = current_section d.
Proof.
  apply current_section_same. apply Forall2_same_length_lookup_2.
  - unfold updateActiveNavOnScroll. now rewrite length_fmap.
  - intros j e' e He' He. rewrite lookup_updateActiveNavOnScroll, He in He'.
    cbn [fmap option_fmap option_map] in He'. injection He' as <-.
    apply marked_same.
Qed.

(** A scroll event wipes out what a click on a navigation item did to the
    active marks: the page after click and scroll is the page after the
    scroll alone. *)
Theorem scroll_overrides_click d this link :
  d !! this = Some link -> is_nav_item link = true ->
  updateActiveNavOnScroll (snd (on_click this d)) = updateActiveNavOnScroll d.
Proof.
  intros Hl Hn.
  destruct (on_click_cases this d) as [-> | ->]; [|reflexivity].
  unfold updateActiveNavOnScroll at 1. cbv zeta.
  rewrite current_section_click. unfold updateActiveNavOnScroll.
  apply list_eq. intros j.
  rewrite !list_lookup_fmap, lookup_updateActiveNavLink.
  destruct (d !! j) as [e|] eqn:He; [|reflexivity].
  cbn [fmap option_fmap option_map]. f_equal.
  destruct (decide (this = j)) as [<-|_]; [|apply marked_cleared].
  assert (e = link) by congruence. subst e.
  rewrite marked_forgets; [apply marked_cleared | auto |].
  now rewrite cleared_nav.
Qed.

(** Running the scroll handler twice in a row is running it once. *)
Theorem scroll_twice_is_scroll_once d :
  updateActiveNavOnScroll (updateActiveNavOnScroll d) = updateActiveNavOnScroll d.
Proof.
  unfold updateActiveNavOnScroll at 1. cbv zeta.
  rewrite current_section_scroll. unfold updateActiveNavOnScroll.
  rewrite <- list_fmap_compose. apply list_fmap_ext.
  intros _ e _. apply marked_marked.
Qed.

(** Neither handler adds or removes an element, and of an element neither
    changes the tag, the id, the href, the position, or any class other
    than [active]. *)
Theorem handlers_touch_active_only d d' j e' :
  (d' = updateActiveNavOnScroll d \/ exists this, d' = snd (on_click this d)) ->
  d' !! j = Some e' ->
  length d' = length d /\
  exists e,
    d !! j = Some e /\
    tag e' = tag e /\ id e' = id e /\ href e' = href e /\ top e' = top e /\
    forall c, c <> active ->
      DOM.contains c (classList e') = DOM.contains c (classList e).
Proof.
  assert (Hrem : forall e c, c <> active ->
            DOM.contains c (classList (with_classList (DOM.remove active) e)) =
            DOM.contains c (classList e))
    by (intros; now apply contains_remove_other).
  assert (Hadd : forall e c, c <> active ->
            DOM.contains c (classList (with_classList (DOM.add active) e)) =
            DOM.contains c (classList e))
    by (intros; now apply contains_add_other).
  assert (Hcl : forall e c, c <> active ->
            DOM.contains c (classList (cleared e)) = DOM.contains c (classList e)).
  { intros e c Hc. unfold cleared. destruct (is_nav_item e); auto. }
  intros [-> | [this ->]] He'.
  - split; [unfold updateActiveNavOnScroll; apply length_fmap|].
    rewrite lookup_updateActiveNavOnScroll in He'.
    destruct (d !! j) as [e|]; [|discriminate].
    cbn [fmap option_fmap option_map] in He'. injection He' as <-.
    exists e. split; [reflexivity|].
    destruct (marked_same (current_section d) e) as (Ht & Hi & Hp).
    repeat split; auto using marked_href.
    intros c Hc. unfold marked. destruct (is_nav_item e); [|reflexivity].
    cbv zeta. destruct (href_is _ _); [rewrite Hadd by assumption|]; auto.
  - destruct (on_click_cases this d) as [E | E]; rewrite E in *.
    + split; [unfold updateActiveNavLink; now rewrite length_alter, length_fmap|].
      rewrite lookup_updateActiveNavLink in He'.
      destruct (d !! j) as [e|]; [|discriminate].
      cbn [fmap option_fmap option_map] in He'. injection He' as <-.
      exists e. split; [reflexivity|].
      destruct (cleared_same e) as (Ht & Hi & Hp).
      destruct (decide (this = j)).
      * repeat split; auto using cleared_href.
        -- unfold with_classList. cbn [href]. apply cleared_href.
        -- intros c Hc. rewrite Hadd by assumption. auto.
      * repeat split; auto using cleared_href.
    + split; [reflexivity|]. exists e'. repeat split; auto.
Qed.

(** With no section at or above the 100-pixel line, [current] stays empty:
    the scroll handler then marks exactly the navigation items whose href
    is ['#'] alone. *)
Theorem scroll_above_first_section d j link :
  (forall s, In s d -> qualifies s = false) ->
  d !! j = Some link -> is_nav_item link = true ->
  current_section d = [] /\
  exists link',
    updateActiveNavOnScroll d !! j = Some link' /\
    (is_active link' = true <-> href link = Some (str "#")).
Proof.
  intros Hno Hj Hn.
  assert (Hc : current_section d = []) by now apply scan_unqualified.
  split; [exact Hc|].
  exists (marked (current_section d) link).
  rewrite lookup_updateActiveNavOnScroll, Hj. split; [reflexivity|].
  rewrite (marked_active _ _ Hn), Hc, app_nil_r. apply href_is_true.
Qed.

End NavigatorMore.

(** ** The code-block copier along any run *)

Section CopierRuns.
Import Copier.

Lemma swap_styles a b l :
  a <> b ->
  DOM.contains a (DOM.add a (DOM.remove b l)) = true /\
  DOM.contains b (DOM.add a (DOM.remove b l)) = false /\
  forall c, c <> a -> c <> b ->
    DOM.contains c (DOM.add a (DOM.remove b l)) = DOM.contains c l.
Proof.
  intros Hab. split; [apply contains_add_same|]. split.
  - rewrite contains_add_other by congruence. apply contains_remove_same.
  - intros c Ha Hb.
    now rewrite contains_add_other, contains_remove_other.
Qed.

Lemma revert_ok tm b :
  originalHTML tm = copy_icon \/ originalHTML tm = check_icon ->
  control_ok b -> control_ok (revert tm b).
Proof.
  intros Ho (_ & _ & Ht & Hc).
  destruct (swap_styles secondary success (classList b)) as (H1 & H2 & H3).
  { intros E. symmetry in E. now apply success_not_secondary. }
  unfold control_ok, revert. cbn [innerHTML classList title].
  rewrite H1, H2. repeat split; auto.
  intros c Hs Hn. rewrite H3 by assumption. auto.
Qed.

Lemma reverts_ok tms : forall b,
  Forall (fun tm => originalHTML tm = copy_icon \/ originalHTML tm = check_icon) tms ->
  control_ok b -> control_ok (fold_left (fun b tm => revert tm b) tms b).
Proof.
  induction tms as [|tm tms IH]; intros b Hall Hb; [exact Hb|].
  apply Forall_cons in Hall as [Htm Hall].
  cbn [fold_left]. apply IH; [assumption | now apply revert_ok].
Qed.

Lemma advance_ok t s :
  timers_ok s -> control_ok (copyButton s) ->
  timers_ok (advance t s) /\ control_ok (copyButton (advance t s)) /\
  clock s <= clock (advance t s).
Proof.
  intros Ht Hb. unfold advance.
  destruct (N.ltb_spec t (clock s)) as [Hlt|Hge];
    [split; [assumption|split; [assumption|lia]]|].
  cbn [clock copyButton pending]. unfold timers_ok in *. cbn [clock pending].
  split; [|split; [|exact Hge]].
  - apply Forall_forall. intros tm Hin.
    apply list_elem_of_In, filter_In in Hin as [Hin _].
    rewrite Forall_forall in Ht.
    destruct (Ht tm (proj2 (list_elem_of_In _ _) Hin)) as [Hd Ho].
    split; [lia | exact Ho].
  - apply reverts_ok; [|exact Hb].
    apply Forall_forall. intros tm Hin.
    apply list_elem_of_In, filter_In in Hin as [Hin _].
    rewrite Forall_forall in Ht.
    exact (proj2 (Ht tm (proj2 (list_elem_of_In _ _) Hin))).
Qed.

Lemma on_copied_ok s :
  timers_ok s -> control_ok (copyButton s) ->
  timers_ok (on_copied s) /\ control_ok (copyButton (on_copied s)).
Proof.
  intros Ht (Hs & Hi & Hti & Hc).
  unfold on_copied, timers_ok, control_ok.
  cbn [clock copyButton pending innerHTML classList title].
  split.
  - apply Forall_app. split; [exact Ht|].
    apply Forall_cons. split; [|constructor].
    cbn [due originalHTML]. split; [lia | exact Hi].
  - destruct (swap_styles success secondary (classList (copyButton s))
                success_not_secondary) as (H1 & H2 & H3).
    rewrite H1, H2. repeat split; auto.
    intros c Hcs Hcn. rewrite H3 by assumption. auto.
Qed.

Lemma handle_ok s e :
  timers_ok s -> control_ok (copyButton s) ->
  timers_ok (handle s e) /\ control_ok (copyButton (handle s e)).
Proof.
  intros Ht Hb.
  destruct e as [t|t|t]; cbn [handle];
    destruct (advance_ok t s Ht Hb) as (Ht' & Hb' & _).
  - now apply on_copied_ok.
  - now split.
  - now split.
Qed.

Lemma run_ok es : forall s,
  timers_ok s -> control_ok (copyButton s) ->
  timers_ok (run es s) /\ control_ok (copyButton (run es s)).
Proof.
  induction es as [|e es IH]; intros s Ht Hb; [now split|].
  unfold run. cbn [fold_left]. destruct (handle_ok s e Ht Hb). now apply IH.
Qed.

Lemma initial_ok : timers_ok initial /\ control_ok (copyButton initial).
Proof.
  split; [constructor|].
  unfold control_ok. cbn [initial copyButton].
  split; [vm_compute; reflexivity|]. split; [now left|]. split; reflexivity.
Qed.

(** Whatever copies succeed or fail and whenever, the control carries
    exactly one of the two outline styles, shows one of the two icons, and
    keeps its title and all its other classes. *)
Theorem control_keeps_its_shape es :
  let b := copyButton (run es initial) in
  DOM.contains success (classList b) = negb (DOM.contains secondary (classList b)) /\
  (innerHTML b = copy_icon \/ innerHTML b = check_icon) /\
  title b = str "Copy to clipboard" /\
  forall c, c <> success -> c <> secondary ->
    DOM.contains c (classList b) = DOM.contains c (classList new_button).
Proof.
  destruct initial_ok as [Ht Hb].
  exact (proj2 (run_ok es initial Ht Hb)).
Qed.

Lemma filter_all {A} (P : A -> bool) l :
  Forall (fun x => P x = true) l ->
  List.filter P l = l /\ List.filter (fun x => negb (P x)) l = [].
Proof.
  induction 1 as [|x l Hx _ [IH1 IH2]]; [split; reflexivity|].
  cbn [List.filter]. rewrite Hx. cbn [negb]. now rewrite IH1, IH2.
Qed.

Lemma fold_revert_last tms tm b :
  innerHTML (fold_left (fun b tm => revert tm b) (tms ++ [tm]) b) =
  originalHTML tm.
Proof. rewrite fold_left_app. reflexivity. Qed.

(** In any state, when a write succeeds and nothing else happens for
    2000 ms, the control ends up with the markup it showed at the moment
    the write succeeded, in the secondary style, with no timer left: the
    copy icon if that was showing, the confirmation icon if the
    confirmation of an earlier copy was still showing. *)
Theorem copy_settles_on_markup_at_hand es t' :
  let s := run es initial in
  clock s + 2000 <= t' ->
  let s' := advance t' (on_copied s) in
  innerHTML (copyButton s') = innerHTML (copyButton s) /\
  DOM.contains secondary (classList (copyButton s')) = true /\
  DOM.contains success (classList (copyButton s')) = false /\
  pending s' = [].
Proof.
  intros s Ht' s'.
  destruct initial_ok as [Ht Hb].
  destruct (run_ok es initial Ht Hb) as [Hts Hbs]. fold s in Hts, Hbs.
  destruct (on_copied_ok s Hts Hbs) as [Ht1 Hb1].
  assert (Hall : Forall (fun tm => (due tm <=? t') = true) (pending (on_copied s))).
  { eapply Forall_impl; [exact Ht1|].
    intros tm [Hd _]. apply N.leb_le.
    change (clock (on_copied s)) with (clock s) in Hd. lia. }
  destruct (filter_all _ _ Hall) as [F1 F2].
  subst s'. rewrite advance_forward by (change (clock (on_copied s)) with (clock s); lia).
  cbn [copyButton pending]. rewrite F1, F2.
  split; [|split; [|split; [|reflexivity]]].
  - unfold on_copied at 1. cbn [pending]. apply fold_revert_last.
  - unfold on_copied at 1. cbn [pending]. rewrite fold_left_app.
    cbn [fold_left revert classList]. apply contains_add_same.
  - unfold on_copied at 1. cbn [pending]. rewrite fold_left_app.
    cbn [fold_left revert classList].
    rewrite contains_add_other by apply success_not_secondary.
    apply contains_remove_same.
Qed.

End CopierRuns.

(** ** The API tester: what the styles say; the formatting utility *)

Section TesterStyles.
Import JSON ApiTester Utility.

Context {number : Type}.
Variable NumberToString : number -> jstring.
Variable network : @request -> settled (@response number).

Local Abbreviation submit := (ApiTester.submit NumberToString network).
Local Abbreviation the_request := (validate_request NumberToString).
Local Abbreviation formatApiResponse := (Utility.formatApiResponse NumberToString).

Lemma class_names_spelled :
  success_class = str "bg-dark p-3 rounded border " ++ str "border-success" /\
  danger_class = str "bg-dark p-3 rounded border " ++ str "border-danger".
Proof. split; vm_compute; reflexivity. Qed.

(** The utility writes the markup of what the tester shows: wrapping the
    output's class name and text in a [pre] element gives
    [formatApiResponse] of the parsed body, flagged as an error exactly
    when the response is not ok; and of the failure report, flagged as an
    error, when the request or the reading of the body failed. *)
Theorem formatApiResponse_writes_the_panel apiKey email p :
  apiKey <> [] -> email <> [] ->
  let p' := snd (submit apiKey email p) in
  let markup :=
    str "<pre class=" ++ [34] ++ output_className p' ++ [34] ++ str ">"
      ++ output_textContent p' ++ str "</pre>" in
  (forall resp result,
     network (the_request apiKey email) = Fulfilled resp ->
     json resp = Fulfilled result ->
     markup = formatApiResponse result (Some (negb (ok resp)))) /\
  (forall message,
     network (the_request apiKey email) = Rejected message \/
     (exists resp, network (the_request apiKey email) = Fulfilled resp /\
                   json resp = Rejected message) ->
     markup = formatApiResponse (failure_report message) (Some true)).
Proof.
  intros Hk He p' markup. subst markup p'.
  rewrite (submit_filled NumberToString network _ _ _ Hk He). cbn [snd].
  destruct class_names_spelled as [Es Ed].
  unfold Utility.formatApiResponse. split.
  - intros resp result -> ->.
    cbn [rendered output_className output_textContent].
    destruct (ok resp); cbn [negb]; rewrite ?Es, ?Ed, <- ?app_assoc; reflexivity.
  - intros message [-> | (resp & -> & ->)];
      cbn [rendered output_className output_textContent];
      rewrite Ed, <- ?app_assoc; reflexivity.
Qed.

Lemma quoteUnits_as_is s :
  forallb written_as_is s = true -> quoteUnits s = s.
Proof.
  induction s as [|c s IH]; [reflexivity|].
  cbn [forallb]. intros H. apply andb_true_iff in H as [Hc Hs].
  unfold written_as_is in Hc.
  apply andb_true_iff in Hc as [Hc Hsur]. apply andb_true_iff in Hc as [Hc H92].
  apply andb_true_iff in Hc as [H20 H34].
  apply negb_true_iff in Hsur, H92, H34.
  apply orb_false_iff in Hsur as [Hlead Htrail].
  apply N.leb_le in H20. apply N.eqb_neq in H92, H34.
  cbn [quoteUnits]. rewrite Hlead, (IH Hs).
  unfold quoteUnit.
  repeat match goal with
  | |- context [if ?x =? ?y then _ else _] =>
      destruct (N.eqb_spec x y) as [?|?]; [lia|]
  end.
  replace (c <? 32) with false by (symmetry; apply N.ltb_ge; lia).
  now rewrite Hlead, Htrail.
Qed.

(** The utility does not escape markup: a string value free of control
    characters, quotes, backslashes and surrogates appears in the result
    as it is, between two quotes, so any ['<'], ['>'] or ['&'] in it
    reaches the page unchanged. *)
Theorem formatApiResponse_keeps_markup_characters s isError :
  forallb written_as_is s = true ->
  let opening :=
    str "<pre class=" ++ [34] ++ str "bg-dark p-3 rounded border "
      ++ (if match isError with Some b => b | None => false end
          then str "border-danger" else str "border-success")
      ++ [34] ++ str ">" in
  formatApiResponse (String s) isError =
    opening ++ [34] ++ s ++ [34] ++ str "</pre>" /\
  includes (formatApiResponse (String s) isError) s = true.
Proof.
  intros Hs opening.
  assert (E : formatApiResponse (String s) isError =
              opening ++ [34] ++ s ++ [34] ++ str "</pre>").
  { subst opening.
    unfold Utility.formatApiResponse, stringify2. cbn [serialize].
    unfold QuoteJSONString. rewrite (quoteUnits_as_is _ Hs). cbv zeta.
    set (a := str "<pre class="). set (b := str "bg-dark p-3 rounded border ").
    set (d := str ">"). set (e := str "</pre>").
    set (c1 := str "border-danger"). set (c2 := str "border-success").
    repeat rewrite <- app_assoc.
    change ((34 :: s ++ [34]) ++ e) with (34 :: (s ++ [34]) ++ e).
    rewrite <- (app_assoc s [34] e). reflexivity. }
  split; [exact E|].
  rewrite E. apply includes_substring.
  exists (opening ++ [34]), ([34] ++ str "</pre>").
  now rewrite <- app_assoc.
Qed.

End TesterStyles.

(** ** The code blocks and their copy controls *)

Section CodeBlockFacts.
Import CodeBlock.

Lemma node_induction (P : node -> Prop) :
  (forall d, P (Text d)) ->
  (forall t cl pos ch, Forall P ch -> P (Element t cl pos ch)) ->
  forall n, P n.
Proof.
  intros HT HE. fix IH 1. intros [t cl pos ch|d]; [|apply HT].
  apply HE. induction ch as [|c ch IHch]; constructor; [apply IH | exact IHch].
Qed.

Lemma initialize_element t cl pos ch :
  initialize (Element t cl pos ch) =
  if DOM.contains (str "code-block") cl
  then Element t cl (str "relative") (List.map initialize ch ++ [copyButton])
  else Element t cl pos (List.map initialize ch).
Proof. reflexivity. Qed.

Lemma elements_are_children's t cl pos ch :
  elements (Element t cl pos ch) = flat_map all_elements ch.
Proof.
  cbn [elements]. induction ch as [|c ch IH]; [reflexivity|].
  cbn [flat_map]. rewrite IH. now destruct c.
Qed.

Lemma all_elements_initialize_cons t cl pos ch :
  all_elements (initialize (Element t cl pos ch)) =
  initialize (Element t cl pos ch) ::
  flat_map all_elements (List.map initialize ch) ++
  (if DOM.contains (str "code-block") cl then all_elements copyButton else []).
Proof.
  rewrite initialize_element.
  destruct (DOM.contains (str "code-block") cl); cbn [all_elements].
  - rewrite elements_are_children's, flat_map_app. cbn [flat_map].
    now rewrite app_nil_r.
  - now rewrite elements_are_children's, app_nil_r.
Qed.

Lemma has_tag_initialize t n : has_tag t (initialize n) = has_tag t n.
Proof.
  destruct n as [t' cl pos ch|d]; [|reflexivity].
  rewrite initialize_element. now destruct (DOM.contains _ cl).
Qed.

Lemma has_class_initialize c n : has_class c (initialize n) = has_class c n.
Proof.
  destruct n as [t' cl pos ch|d]; [|reflexivity].
  rewrite initialize_element. now destruct (DOM.contains _ cl).
Qed.






(** Setting up the page adds one [button] element for each [.code-block]
    element, and no other. *)
Theorem initialize_adds_one_control_per_block n :
  length (List.filter (has_tag (str "button")) (all_elements (initialize n))) =
  (length (List.filter (has_tag (str "button")) (all_elements n)) +
   length (List.filter (has_class (str "code-block")) (all_elements n)))%nat.
Proof.
  induction n as [d|t cl pos ch IH] using node_induction; [reflexivity|].
  assert (E : length (List.filter (has_tag (str "button"))
                        (flat_map all_elements (List.map initialize ch))) =
              (length (List.filter (has_tag (str "button"))
                         (flat_map all_elements ch)) +
               length (List.filter (has_class (str "code-block"))
                         (flat_map all_elements ch)))%nat).
  { induction IH as [|c ch Hc _ IHch]; [reflexivity|].
    cbn [List.map flat_map].
    rewrite !List.filter_app, !length_app, Hc, IHch. lia. }
  assert (B : length (List.filter (has_tag (str "button"))
                        (all_elements copyButton)) = 1%nat)
    by reflexivity.
  rewrite all_elements_initialize_cons.
  cbn [all_elements List.filter]. rewrite has_tag_initialize.
  rewrite elements_are_children's. cbn [has_class].
  destruct (has_tag (str "button") (Element t cl pos ch));
    destruct (DOM.contains (str "code-block") cl);
    cbn [length]; rewrite List.filter_app, length_app, E;
    rewrite ?B; cbn [List.filter length]; lia.
Qed.

Lemma in_flat_map_all_elements e ch :
  In e (flat_map all_elements ch) -> exists c, In c ch /\ In e (all_elements c).
Proof. intros H. apply in_flat_map in H. exact H. Qed.

(** After the page is set up, every [.code-block] element on it is
    positioned relatively and has the copy control as its last child. *)
Theorem initialize_gives_each_block_its_control n t cl pos ch :
  In (Element t cl pos ch) (all_elements (initialize n)) ->
  DOM.contains (str "code-block") cl = true ->
  pos = str "relative" /\ last ch = Some copyButton.
Proof.
  revert t cl pos ch.
  induction n as [d|t0 cl0 pos0 ch0 IH] using node_induction;
    intros t cl pos ch Hin Hcb; [contradiction|].
  rewrite all_elements_initialize_cons in Hin.
  destruct Hin as [Hroot | Hin].
  - rewrite initialize_element in Hroot.
    destruct (DOM.contains (str "code-block") cl0) eqn:E0.
    + injection Hroot as <- <- <- <-. split; [reflexivity|].
      apply last_snoc.
    + injection Hroot as <- <- <- <-. congruence.
  - apply in_app_iff in Hin as [Hin | Hin].
    + apply in_flat_map_all_elements in Hin as (c & Hc & He).
      apply in_map_iff in Hc as (c0 & <- & Hc0).
      rewrite Forall_forall in IH.
      apply (IH c0 (proj2 (list_elem_of_In _ _) Hc0) t cl pos ch He Hcb).
    + destruct (DOM.contains (str "code-block") cl0); [|contradiction].
      cbn in Hin. destruct Hin as [E | [E | []]];
        injection E as <- <- <- <-; vm_compute in Hcb; discriminate.
Qed.

End CodeBlockFacts.

(** ** The API tester form, step by step *)

Section TesterSteps.
Import JSON ApiTester ApiTesterSteps.

Context {number : Type}.
Variable NumberToString : number -> jstring.
Variable StringToNumber : jstring -> number.

Local Abbreviation start := (ApiTesterSteps.start NumberToString).
Local Abbreviation completed := (ApiTesterSteps.completed NumberToString).
Local Abbreviation the_request := (validate_request NumberToString).

Lemma not_filled (s : jstring) : s <> [] -> not_ s = false.
Proof. destruct s; [contradiction | reflexivity]. Qed.

Lemma start_filled p apiKey email o r :
  api_key p = Some apiKey -> test_email p = Some email ->
  apiKey <> [] -> email <> [] ->
  apiTestOutput p = Some o -> apiTestResult p = Some r ->
  start p =
  Suspended [PreventDefault; Fetch (the_request apiKey email)]
    {| output_textContent := placeholder;
       output_className := className o;
       result_display := str "block" |}
    (the_request apiKey email).
Proof.
  intros Hk He Hkn Hen Ho Hr. unfold ApiTesterSteps.start.
  now rewrite Hk, He, (not_filled _ Hkn), (not_filled _ Hen), Ho, Hr.
Qed.

(** On a page with every element of the tester, running the listener
    through its two suspensions gives the effects and the panel of the
    one-step reading. *)
Lemma completed_is_submit network p apiKey email o r :
  api_key p = Some apiKey -> test_email p = Some email ->
  apiKey <> [] -> email <> [] ->
  apiTestOutput p = Some o -> apiTestResult p = Some r ->
  completed network p =
  Some (submit NumberToString network apiKey email
          {| output_textContent := textContent o;
             output_className := className o;
             result_display := r |}).
Proof.
  intros Hk He Hkn Hen Ho Hr. unfold ApiTesterSteps.completed.
  rewrite (start_filled _ _ _ _ _ Hk He Hkn Hen Ho Hr).
  rewrite (submit_filled NumberToString network _ _ _ Hkn Hen).
  destruct (network _) as [resp|message]; [|reflexivity].
  cbn [fetch_settled json_settled].
  destruct (json resp) as [result|message]; reflexivity.
Qed.

(** With both inputs on the page and both fields filled: if the output
    and the result container exist, the listener makes one request before
    it suspends, shows no alert, and makes no other request however the
    awaited promises settle; the request is a POST to [/api/validate] with
    the key in the [X-API-Key] header and a body that reads as the object
    with the one property [email]. If the output is missing the listener
    throws before it calls [fetch] and the page is as before; if only the
    result container is missing it throws before it calls [fetch], the
    output already showing the placeholder. *)
Theorem start_makes_one_request_or_throws p apiKey email :
  api_key p = Some apiKey -> test_email p = Some email ->
  apiKey <> [] -> email <> [] ->
  let req := the_request apiKey email in
  (forall o r,
     apiTestOutput p = Some o -> apiTestResult p = Some r ->
     (exists w, start p = Suspended [PreventDefault; Fetch req] w req) /\
     forall network,
       exists w', completed network p = Some ([PreventDefault; Fetch req], w')) /\
  (apiTestOutput p = None -> start p = Threw [PreventDefault] p) /\
  (forall o,
     apiTestOutput p = Some o -> apiTestResult p = None ->
     start p =
     Threw [PreventDefault]
       {| api_key := api_key p; test_email := test_email p;
          apiTestOutput := Some {| textContent := placeholder;
                                   className := className o |};
          apiTestResult := None |}) /\
  url req = str "/api/validate" /\
  method req = str "POST" /\
  headers req = [(str "X-API-Key", apiKey);
                 (str "Content-Type", str "application/json")] /\
  parse StringToNumber (body req) = Some (Object [(str "email", String email)]).
Proof.
  intros Hk He Hkn Hen req. subst req.
  split; [|split; [|split]].
  - intros o r Ho Hr.
    pose proof (start_filled _ _ _ _ _ Hk He Hkn Hen Ho Hr) as Hs.
    split; [eexists; exact Hs|].
    intros network. unfold ApiTesterSteps.completed. rewrite Hs.
    destruct (fetch_settled _ _ _); eexists; reflexivity.
  - intros Ho. unfold ApiTesterSteps.start.
    now rewrite Hk, He, (not_filled _ Hkn), (not_filled _ Hen), Ho.
  - intros o Ho Hr. unfold ApiTesterSteps.start.
    now rewrite Hk, He, (not_filled _ Hkn), (not_filled _ Hen), Ho, Hr.
  - repeat split. cbn [body validate_request].
    apply (parse_email_object NumberToString StringToNumber).
Qed.


End TesterSteps.

(** ** Further concrete runs *)

Section MoreRuns.
Import JSON ApiTester Navigator.

Lemma on_input_longer_term_shows_less_run :
  includes (ascii_lower (str "API key")) (ascii_lower (str "api")) = true /\
  Search.on_input ascii_lower (str "api") docs_sections !! 0%nat =
    Some (Search.set_display (str "block")
            {| Search.is_doc_section := true;
               Search.textContent := str "Authentication: send your API key";
               Search.display := [] |}) /\
  Search.on_input ascii_lower (str "API key") docs_sections !! 0%nat =
    Some (Search.set_display (str "block")
            {| Search.is_doc_section := true;
               Search.textContent := str "Authentication: send your API key";
               Search.display := [] |}) /\
  Search.shown
    (Search.set_display (str "block")
       {| Search.is_doc_section := true;
          Search.textContent := str "Authentication: send your API key";
          Search.display := [] |}).
Proof.
  split; [reflexivity|]. split; [reflexivity|]. split; [reflexivity|].
  exact (on_input_longer_term_shows_less ascii_lower
           (str "api") (str "API key") docs_sections 0 _ _
           eq_refl eq_refl eq_refl eq_refl eq_refl).
Defined.

Lemma click_unresolved_changes_nothing_run :
  [plain_link "#"; section_at "intro" 0] !! 0%nat = Some (plain_link "#") /\
  is_anchor_link (plain_link "#") = true /\
  href (plain_link "#") = Some (str "#") /\
  (substring1 (str "#") = [] \/
   forall e, In e [plain_link "#"; section_at "intro" 0] ->
             id e <> Some (substring1 (str "#"))) /\
  on_click 0 [plain_link "#"; section_at "intro" 0] =
    ([Navigator.PreventDefault], [plain_link "#"; section_at "intro" 0]).
Proof.
  split; [reflexivity|]. split; [reflexivity|]. split; [reflexivity|].
  split; [left; reflexivity|].
  exact (click_unresolved_changes_nothing
           [plain_link "#"; section_at "intro" 0] 0 (plain_link "#") (str "#")
           eq_refl eq_refl eq_refl (or_introl eq_refl)).
Defined.

Lemma scroll_overrides_click_run :
  sidebar_page !! 0%nat = Some (nav_link "#intro") /\
  is_nav_item (nav_link "#intro") = true /\
  updateActiveNavOnScroll (snd (on_click 0 sidebar_page)) =
    updateActiveNavOnScroll sidebar_page.
Proof.
  split; [reflexivity|]. split; [reflexivity|].
  exact (scroll_overrides_click sidebar_page 0 (nav_link "#intro")
           eq_refl eq_refl).
Defined.

Lemma handlers_touch_active_only_run :
  (updateActiveNavOnScroll sidebar_page = updateActiveNavOnScroll sidebar_page \/
   exists this, updateActiveNavOnScroll sidebar_page =
                snd (on_click this sidebar_page)) /\
  updateActiveNavOnScroll sidebar_page !! 0%nat =
    Some (with_classList (DOM.remove active) (nav_link "#intro")) /\
  length (updateActiveNavOnScroll sidebar_page) = length sidebar_page /\
  exists e,
    sidebar_page !! 0%nat = Some e /\
    tag (with_classList (DOM.remove active) (nav_link "#intro")) = tag e /\
    id (with_classList (DOM.remove active) (nav_link "#intro")) = id e /\
    href (with_classList (DOM.remove active) (nav_link "#intro")) = href e /\
    top (with_classList (DOM.remove active) (nav_link "#intro")) = top e /\
    forall c, c <> active ->
      DOM.contains c
        (classList (with_classList (DOM.remove active) (nav_link "#intro"))) =
      DOM.contains c (classList e).
Proof.
  split; [left; reflexivity|]. split; [reflexivity|].
  exact (handlers_touch_active_only sidebar_page _ 0 _
           (or_introl eq_refl) eq_refl).
Defined.

Lemma scroll_above_first_section_run :
  (forall s, In s [nav_link "#"; nav_link "#intro"; section_at "intro" (300 # 1)] ->
             qualifies s = false) /\
  [nav_link "#"; nav_link "#intro"; section_at "intro" (300 # 1)] !! 0%nat =
    Some (nav_link "#") /\
  is_nav_item (nav_link "#") = true /\
  current_section
    [nav_link "#"; nav_link "#intro"; section_at "intro" (300 # 1)] = [] /\
  exists link',
    updateActiveNavOnScroll
      [nav_link "#"; nav_link "#intro"; section_at "intro" (300 # 1)] !! 0%nat =
      Some link' /\
    (is_active link' = true <-> href (nav_link "#") = Some (str "#")).
Proof.
  assert (H : forall s,
            In s [nav_link "#"; nav_link "#intro"; section_at "intro" (300 # 1)] ->
            qualifies s = false).
  { intros s [<- | [<- | [<- | []]]]; reflexivity. }
  split; [exact H|]. split; [reflexivity|]. split; [reflexivity|].
  exact (scroll_above_first_section _ 0 (nav_link "#") H eq_refl eq_refl).
Defined.

Lemma copy_settles_on_markup_at_hand_run :
  Copier.clock (Copier.run [Copier.CopySucceeded 0; Copier.Elapsed 1000]
                  Copier.initial) + 2000 <= 3000 /\
  let s := Copier.run [Copier.CopySucceeded 0; Copier.Elapsed 1000]
             Copier.initial in
  let s' := Copier.advance 3000 (Copier.on_copied s) in
  Copier.innerHTML (Copier.copyButton s') =
    Copier.innerHTML (Copier.copyButton s) /\
  DOM.contains Copier.secondary (Copier.classList (Copier.copyButton s')) = true /\
  DOM.contains Copier.success (Copier.classList (Copier.copyButton s')) = false /\
  Copier.pending s' = [].
Proof.
  assert (H : Copier.clock
                (Copier.run [Copier.CopySucceeded 0; Copier.Elapsed 1000]
                   Copier.initial) + 2000 <= 3000)
    by (vm_compute; discriminate).
  split; [exact H|].
  exact (copy_settles_on_markup_at_hand
           [Copier.CopySucceeded 0; Copier.Elapsed 1000] 3000 H).
Defined.

Lemma start_makes_one_request_or_throws_run :
  ApiTesterSteps.api_key tested_page = Some (str "key-123") /\
  ApiTesterSteps.test_email tested_page = Some (str "a@b.co") /\
  str "key-123" <> [] /\ str "a@b.co" <> [] /\
  (exists w,
     ApiTesterSteps.start print_integer tested_page =
     ApiTesterSteps.Suspended
       [ApiTester.PreventDefault;
        Fetch (validate_request print_integer (str "key-123") (str "a@b.co"))]
       w (validate_request print_integer (str "key-123") (str "a@b.co"))) /\
  parse read_integer
    (body (validate_request print_integer (str "key-123") (str "a@b.co"))) =
    Some (Object [(str "email", String (str "a@b.co"))]).
Proof.
  assert (Hk : str "key-123" <> []) by discriminate.
  assert (He : str "a@b.co" <> []) by discriminate.
  pose proof (start_makes_one_request_or_throws print_integer read_integer
                tested_page (str "key-123") (str "a@b.co")
                eq_refl eq_refl Hk He) as T.
  cbv zeta in T.
  split; [reflexivity|]. split; [reflexivity|].
  split; [exact Hk|]. split; [exact He|].
  split; [exact (proj1 (proj1 T _ _ eq_refl eq_refl))|].
  exact (proj2 (proj2 (proj2 (proj2 (proj2 (proj2 T)))))).
Defined.


Lemma formatApiResponse_writes_the_panel_run :
  str "key-123" <> [] /\ str "a@b.co" <> [] /\
  let p' := snd (submit print_integer unreachable
                   (str "key-123") (str "a@b.co") blank_panel) in
  let markup :=
    str "<pre class=" ++ [34] ++ output_className p' ++ [34] ++ str ">"
      ++ output_textContent p' ++ str "</pre>" in
  (forall resp result,
     unreachable (validate_request print_integer (str "key-123") (str "a@b.co")) =
       Fulfilled resp ->
     json resp = Fulfilled result ->
     markup = Utility.formatApiResponse print_integer result
                (Some (negb (ok resp)))) /\
  (forall message,
     unreachable (validate_request print_integer (str "key-123") (str "a@b.co")) =
       Rejected message \/
     (exists resp,
        unreachable (validate_request print_integer (str "key-123") (str "a@b.co")) =
          Fulfilled resp /\
        json resp = Rejected message) ->
     markup = Utility.formatApiResponse print_integer (failure_report message)
                (Some true)).
Proof.
  assert (Hk : str "key-123" <> []) by discriminate.
  assert (He : str "a@b.co" <> []) by discriminate.
  split; [exact Hk|]. split; [exact He|].
  exact (formatApiResponse_writes_the_panel print_integer unreachable
           (str "key-123") (str "a@b.co") blank_panel Hk He).
Defined.

Lemma formatApiResponse_keeps_markup_characters_run :
  forallb Utility.written_as_is (str "<b>&</b>") = true /\
  let opening :=
    str "<pre class=" ++ [34] ++ str "bg-dark p-3 rounded border "
      ++ str "border-success" ++ [34] ++ str ">" in
  Utility.formatApiResponse print_integer (String (str "<b>&</b>")) None =
    opening ++ [34] ++ str "<b>&</b>" ++ [34] ++ str "</pre>" /\
  includes (Utility.formatApiResponse print_integer (String (str "<b>&</b>")) None)
    (str "<b>&</b>") = true.
Proof.
  split; [reflexivity|].
  exact (formatApiResponse_keeps_markup_characters print_integer
           (str "<b>&</b>") None eq_refl).
Defined.

Lemma initialize_gives_each_block_its_control_run :
  In (CodeBlock.Element (str "div") [str "code-block"] (str "relative")
        [CodeBlock.Text (str "no code here"); CodeBlock.copyButton])
     (CodeBlock.all_elements (CodeBlock.initialize CodeBlock.sample_page)) /\
  DOM.contains (str "code-block") [str "code-block"] = true /\
  str "relative" = str "relative" /\
  last [CodeBlock.Text (str "no code here"); CodeBlock.copyButton] =
    Some CodeBlock.copyButton.
Proof.
  assert (H : In (CodeBlock.Element (str "div") [str "code-block"] (str "relative")
                    [CodeBlock.Text (str "no code here"); CodeBlock.copyButton])
                 (CodeBlock.all_elements
                    (CodeBlock.initialize CodeBlock.sample_page)))
    by (do 7 right; left; reflexivity).
  split; [exact H|]. split; [reflexivity|].
  exact (initialize_gives_each_block_its_control CodeBlock.sample_page
           _ _ _ _ H eq_refl).
Defined.

End MoreRuns.
